(** * ArticleScraperForm: a shallow embedding of the submission form component

    Source: [src/components/ArticleScraperForm.tsx].

    The component keeps three pieces of React state ([formData], [isLoading],
    [isSuccess]), validates the two fields, posts them to a fixed endpoint and
    reports the outcome through toasts.  The development has two parts.

    Definitions:
    - [JS]: JavaScript strings as sequences of UTF-16 code units;
    - [RegExp]: the fragment of the ECMAScript pattern language used by
      [emailRegex], with the backtracking matcher of the language definition;
    - [URL]: the URL parser behind [new URL(url)] (URL Standard, no base);
    - [JSON]: the values [response.json()] gives and [JSON.stringify] of the
      payload;
    - the component: its state, its handlers as computations with effects,
      exceptions and suspension at [await], what it renders, and the event
      loop that calls the handlers.

    Properties: the email pattern, URL validation, single runs of the
    handlers, the invariant of the event loop, and the component's contract. *)

From Stdlib Require Import String Ascii.
From Stdlib Require Import List Bool Arith NArith ZArith Lia.
From Stdlib Require Import Floats.SpecFloat.
Import ListNotations.

Set Implicit Arguments.
Set Warnings "-register-all".

(* ================================================================== *)
(** ** JavaScript strings *)
(* ================================================================== *)

Module JS.

(** A JavaScript string is a finite sequence of 16-bit code units. *)
Definition jsstring := list N.

(** The code units of an ASCII literal, so that examples can be written as
    the source writes them. *)
Definition js (s : string) : jsstring :=
  map N_of_ascii (list_ascii_of_string s).

Definition eqb (a b : jsstring) : bool :=
  if list_eq_dec N.eq_dec a b then true else false.

Definition in_range (lo hi c : N) : bool := (lo <=? c)%N && (c <=? hi)%N.

Definition is_ascii_upper_alpha (c : N) : bool := in_range 65 90 c.
Definition is_ascii_lower_alpha (c : N) : bool := in_range 97 122 c.
Definition is_ascii_alpha (c : N) : bool :=
  is_ascii_upper_alpha c || is_ascii_lower_alpha c.
Definition is_ascii_digit (c : N) : bool := in_range 48 57 c.
Definition is_ascii_alphanumeric (c : N) : bool :=
  is_ascii_digit c || is_ascii_alpha c.

(** ASCII lowercase of one code point. *)
Definition ascii_lower (c : N) : N :=
  if is_ascii_upper_alpha c then (c + 32)%N else c.

Definition at_sign : N := 64.
Definition full_stop : N := 46.

End JS.

Import JS.

(* ================================================================== *)
(** ** Regular expressions: the fragment used by [emailRegex] *)
(* ================================================================== *)

Module RegExp.

(** Members of a character class: a literal code unit or the escape [\s]. *)
Inductive ClassAtom : Type :=
| ClassChar (c : N)
| ClassWhiteSpace.

(** Atoms consume exactly one code unit (the pattern has no [u] flag). *)
Inductive Atom : Type :=
| PatternCharacter (c : N)
| CharacterClass (invert : bool) (members : list ClassAtom).

(** Terms: the two assertions, an atom, and an atom under the greedy
    quantifier [+]. *)
Inductive Term : Type :=
| AssertStart
| AssertEnd
| TermAtom (a : Atom)
| TermPlus (a : Atom).

(** A pattern without [|] is one alternative: a sequence of terms. *)
Definition Pattern := list Term.

(** [\s]: WhiteSpace and LineTerminator of the language definition. *)
Definition is_white_space (c : N) : bool :=
  match c with
  | 9%N | 10%N | 11%N | 12%N | 13%N | 32%N | 160%N
  | 5760%N | 8232%N | 8233%N | 8239%N | 8287%N | 12288%N | 65279%N => true
  | _ => in_range 8192 8202 c
  end.

Definition class_atom_matches (m : ClassAtom) (c : N) : bool :=
  match m with
  | ClassChar d => N.eqb c d
  | ClassWhiteSpace => is_white_space c
  end.

Definition atom_matches (a : Atom) (c : N) : bool :=
  match a with
  | PatternCharacter d => N.eqb c d
  | CharacterClass invert members =>
      xorb invert (existsb (fun m => class_atom_matches m c) members)
  end.

(** Matchers take the current index, the input from that index on, and a
    continuation for the rest of the pattern. *)
Definition Continuation := nat -> jsstring -> bool.

(** RepeatMatcher for [a+] where [a] consumes one code unit: greedy, so a
    further iteration is tried before the continuation. *)
Fixpoint plus_matcher (a : Atom) (i : nat) (rest : jsstring)
                      (c : Continuation) : bool :=
  match rest with
  | [] => false
  | ch :: rest' =>
      if atom_matches a ch
      then plus_matcher a (S i) rest' c || c (S i) rest'
      else false
  end.

Definition term_matcher (t : Term) (i : nat) (rest : jsstring)
                        (c : Continuation) : bool :=
  match t with
  | AssertStart => if Nat.eqb i 0 then c i rest else false
  | AssertEnd => match rest with [] => c i rest | _ :: _ => false end
  | TermAtom a =>
      match rest with
      | [] => false
      | ch :: rest' => if atom_matches a ch then c (S i) rest' else false
      end
  | TermPlus a => plus_matcher a i rest c
  end.

Fixpoint alternative_matcher (p : Pattern) (i : nat) (rest : jsstring)
                             (c : Continuation) : bool :=
  match p with
  | [] => c i rest
  | t :: p' =>
      term_matcher t i rest (fun i' rest' => alternative_matcher p' i' rest' c)
  end.

(** RegExpBuiltinExec for a pattern without the [g] and [y] flags: the match
    is attempted at index 0, then 1, ... up to the length of the input. *)
Fixpoint exec_from (p : Pattern) (i : nat) (rest : jsstring) : bool :=
  alternative_matcher p i rest (fun _ _ => true)
  || match rest with
     | [] => false
     | _ :: rest' => exec_from p (S i) rest'
     end.

(** [RegExp.prototype.test]. *)
Definition test (p : Pattern) (s : jsstring) : bool := exec_from p 0 s.

End RegExp.

(* ================================================================== *)
(** ** URL parsing: what [new URL(url)] does when no base is given *)
(* ================================================================== *)

(** [new URL(url)] converts [url] to a sequence of Unicode scalar values and
    runs the basic URL parser of the URL Standard with a null base and no
    state override; it throws a [TypeError] exactly when the parser returns
    failure.  The states below are the states of that parser, each one a
    function of the input that is left; [decrease pointer by 1] hands the
    current code point to the next state, and an empty remainder is the EOF
    code point.  Components that cannot make parsing fail (credentials, path,
    query, fragment) are not recorded. *)

Module URL.

Inductive Host : Type :=
| Domain (d : list N)
| IPv4 (address : N)
| IPv6 (pieces : list N)
| OpaqueHost (h : list N)
| EmptyHost.

Record URLRecord : Type := {
  scheme : list N;
  host : option Host;          (* null or a host *)
  port : option N              (* null or a 16-bit integer *)
}.

(** The two parts of host parsing that depend on tables outside the parser
    itself.  [IPv6_parser] is the IPv6 parser of the standard, applied to
    what stands between the brackets.  [Unicode_ToASCII] is percent-decoding,
    UTF-8 decoding and the UTS #46 ToASCII operation on a domain; it is only
    consulted for a domain that has a non-ASCII code point, a [%] or a label
    starting with [xn--].  Both return [None] for failure. *)
Record HostPlatform : Type := {
  IPv6_parser : list N -> option (list N);
  Unicode_ToASCII : list N -> option (list N)
}.

(** *** Conversion to scalar values and input clean-up *)

Definition is_lead_surrogate (c : N) : bool := in_range 55296 56319 c.
Definition is_trail_surrogate (c : N) : bool := in_range 56320 57343 c.

(** USVString conversion: a surrogate pair is one code point, a lone
    surrogate becomes U+FFFD. *)
Fixpoint to_scalar_values (s : jsstring) : list N :=
  match s with
  | [] => []
  | c :: s' =>
      if is_lead_surrogate c then
        match s' with
        | d :: s'' =>
            if is_trail_surrogate d
            then (65536 + (c - 55296) * 1024 + (d - 56320))%N :: to_scalar_values s''
            else 65533%N :: to_scalar_values s'
        | [] => [65533%N]
        end
      else if is_trail_surrogate c then 65533%N :: to_scalar_values s'
      else c :: to_scalar_values s'
  end.

Definition is_C0_control_or_space (c : N) : bool := (c <=? 32)%N.

Definition is_ascii_tab_or_newline (c : N) : bool :=
  match c with
  | 9%N | 10%N | 13%N => true
  | _ => false
  end.

Fixpoint strip_leading (s : list N) : list N :=
  match s with
  | [] => []
  | c :: s' => if is_C0_control_or_space c then strip_leading s' else s
  end.

Definition strip_trailing (s : list N) : list N := rev (strip_leading (rev s)).

(** Steps 1 and 2 of the parser: leading and trailing C0 controls and spaces
    are removed, then every ASCII tab or newline. *)
Definition clean_input (s : list N) : list N :=
  filter (fun c => negb (is_ascii_tab_or_newline c))
         (strip_trailing (strip_leading s)).

(** *** Schemes *)

Definition colon : N := 58.
Definition slash : N := 47.
Definition backslash : N := 92.
Definition question_mark : N := 63.
Definition number_sign : N := 35.
Definition left_bracket : N := 91.
Definition right_bracket : N := 93.
Definition percent_sign : N := 37.

Definition is_scheme_code_point (c : N) : bool :=
  is_ascii_alphanumeric c || N.eqb c 43 || N.eqb c 45 || N.eqb c 46.

Definition is_special (sch : list N) : bool :=
  existsb (JS.eqb sch)
          [js "ftp"; js "file"; js "http"; js "https"; js "ws"; js "wss"].

Definition default_port (sch : list N) : option N :=
  if JS.eqb sch (js "ftp") then Some 21%N
  else if JS.eqb sch (js "http") then Some 80%N
  else if JS.eqb sch (js "https") then Some 443%N
  else if JS.eqb sch (js "ws") then Some 80%N
  else if JS.eqb sch (js "wss") then Some 443%N
  else None.

Inductive SchemeResult : Type :=
| SchemeFound (sch : list N) (remaining : list N)
| NoScheme.

(** Scheme state.  Anything but a scheme code point or [:] (the end of the
    input included) sends the parser to the no scheme state. *)
Fixpoint scheme_state (buffer : list N) (rest : list N) : SchemeResult :=
  match rest with
  | [] => NoScheme
  | c :: rest' =>
      if is_scheme_code_point c
      then scheme_state (buffer ++ [ascii_lower c]) rest'
      else if N.eqb c colon then SchemeFound buffer rest'
      else NoScheme
  end.

(** Scheme start state. *)
Definition scheme_start_state (input : list N) : SchemeResult :=
  match input with
  | [] => NoScheme
  | c :: rest =>
      if is_ascii_alpha c then scheme_state [ascii_lower c] rest else NoScheme
  end.

(** No scheme state: the base is null, so the parser returns failure. *)
Definition no_scheme_state : option URLRecord := None.

(** *** Hosts *)

Definition forbidden_host_code_point (c : N) : bool :=
  match c with
  | 0%N | 9%N | 10%N | 13%N | 32%N | 35%N | 47%N | 58%N | 60%N | 62%N
  | 63%N | 64%N | 91%N | 92%N | 93%N | 94%N | 124%N => true
  | _ => false
  end.

Definition forbidden_domain_code_point (c : N) : bool :=
  forbidden_host_code_point c || (c <=? 31)%N || N.eqb c percent_sign
  || N.eqb c 127.

(** Strictly split on a separator: the result always has one part more than
    there are separators. *)
Fixpoint strictly_split (sep : N) (s : list N) : list (list N) :=
  match s with
  | [] => [[]]
  | c :: s' =>
      if N.eqb c sep then [] :: strictly_split sep s'
      else match strictly_split sep s' with
           | p :: ps => (c :: p) :: ps
           | [] => [[c]]
           end
  end.

Definition digit_value (radix c : N) : option N :=
  if is_ascii_digit c then
    (if (c - 48 <? radix)%N then Some (c - 48)%N else None)
  else if N.eqb radix 16 then
    (if in_range 97 102 c then Some (c - 87)%N
     else if in_range 65 70 c then Some (c - 55)%N
     else None)
  else None.

Fixpoint parse_radix (radix acc : N) (s : list N) : option N :=
  match s with
  | [] => Some acc
  | c :: s' =>
      match digit_value radix c with
      | Some v => parse_radix radix (acc * radix + v)%N s'
      | None => None
      end
  end.

(** IPv4 number parser: decimal, or hexadecimal after [0x], or octal after a
    leading [0]. *)
Definition IPv4_number_parser (input : list N) : option N :=
  match input with
  | [] => None
  | 48%N :: 120%N :: digits | 48%N :: 88%N :: digits =>
      match digits with
      | [] => Some 0%N
      | _ :: _ => parse_radix 16 0 digits
      end
  | 48%N :: ((_ :: _) as digits) => parse_radix 8 0 digits
  | _ => parse_radix 10 0 input
  end.

Definition is_IPv4_number (part : list N) : bool :=
  match part with
  | [] => false
  | _ :: _ =>
      forallb is_ascii_digit part
      || match IPv4_number_parser part with
         | Some _ => true
         | None => false
         end
  end.

(** Ends-in-a-number checker: the last part, not counting the empty part
    that a trailing dot leaves, is a number. *)
Definition ends_in_a_number (input : list N) : bool :=
  match rev (strictly_split full_stop input) with
  | [] => false
  | [[]] => false
  | [] :: last :: _ => is_IPv4_number last
  | last :: _ => is_IPv4_number last
  end.

Fixpoint parse_all (parts : list (list N)) : option (list N) :=
  match parts with
  | [] => Some []
  | p :: ps =>
      match IPv4_number_parser p, parse_all ps with
      | Some n, Some ns => Some (n :: ns)
      | _, _ => None
      end
  end.

(** IPv4 parser.  [numbers] is taken last number first. *)
Definition IPv4_parser (input : list N) : option N :=
  let parts := strictly_split full_stop input in
  let parts := match rev parts with
               | [] :: ((_ :: _) as others) => rev others
               | _ => parts
               end in
  if (4 <? length parts)%nat then None
  else
    match parse_all parts with
    | None => None
    | Some numbers =>
        match rev numbers with
        | [] => None
        | last :: others =>
            if existsb (fun n => (255 <? n)%N) others then None
            else if (256 ^ (5 - N.of_nat (length numbers)) <=? last)%N then None
            else
              Some (fold_left
                      (fun ipv4 '(n, counter) =>
                         (ipv4 + n * 256 ^ (3 - N.of_nat counter))%N)
                      (combine (rev others) (seq 0 (length others)))
                      last)
        end
    end.

Definition is_ascii_code_point (c : N) : bool := (c <=? 127)%N.

(** Does a label start with [xn--], in any letter case? *)
Definition starts_with_xn (label : list N) : bool :=
  match label with
  | a :: b :: c :: d :: _ =>
      N.eqb (ascii_lower a) 120 && N.eqb (ascii_lower b) 110
      && N.eqb c 45 && N.eqb d 45
  | _ => false
  end.

(** An opaque host may hold anything but a forbidden host code point.  The
    host is recorded as given, before percent-encoding. *)
Definition opaque_host_parser (input : list N) : option Host :=
  if existsb forbidden_host_code_point input then None
  else match input with
       | [] => Some EmptyHost
       | _ :: _ => Some (OpaqueHost input)
       end.

Section Parser.

Variable platform : HostPlatform.

(** Domain to ASCII, not strict.  For an ASCII domain without [%] and without
    an [xn--] label the operation is ASCII lowercasing; an empty result is a
    failure. *)
Definition domain_to_ASCII (domain : list N) : option (list N) :=
  let result :=
    if forallb is_ascii_code_point domain
       && negb (existsb (N.eqb percent_sign) domain)
       && negb (existsb starts_with_xn (strictly_split full_stop domain))
    then Some (map ascii_lower domain)
    else Unicode_ToASCII platform domain in
  match result with
  | Some [] => None
  | r => r
  end.

(** Host parser. *)
Definition host_parser (input : list N) (isOpaque : bool) : option Host :=
  match input with
  | 91%N :: inner =>
      match rev inner with
      | 93%N :: middle => option_map IPv6 (IPv6_parser platform (rev middle))
      | _ => None
      end
  | _ =>
      if isOpaque then opaque_host_parser input
      else
        match domain_to_ASCII input with
        | None => None
        | Some asciiDomain =>
            if existsb forbidden_domain_code_point asciiDomain then None
            else if ends_in_a_number asciiDomain
                 then option_map IPv4 (IPv4_parser asciiDomain)
                 else Some (Domain asciiDomain)
        end
  end.

(** *** The states after the scheme *)

(** Path start, path and opaque path state, and the query and fragment
    states they lead to, never return failure: the parser succeeds with the
    record built so far. *)
Definition path_start_state (url : URLRecord) : option URLRecord := Some url.
Definition path_state (url : URLRecord) : option URLRecord := Some url.
Definition opaque_path_state (url : URLRecord) : option URLRecord := Some url.

(** The code points that end the authority: [/], [?], [#], and [\] in a
    special URL.  The end of the input does too. *)
Definition ends_authority (special : bool) (c : N) : bool :=
  N.eqb c slash || N.eqb c question_mark || N.eqb c number_sign
  || (special && N.eqb c backslash).

Definition is_empty (s : list N) : bool :=
  match s with [] => true | _ :: _ => false end.

(** Port state. *)
Definition port_done (sch : list N) (h : Host) (buffer : list N)
  : option URLRecord :=
  match buffer with
  | [] => path_start_state {| scheme := sch; host := Some h; port := None |}
  | _ :: _ =>
      match parse_radix 10 0 buffer with
      | None => None
      | Some p =>
          if (65535 <? p)%N then None
          else path_start_state
                 {| scheme := sch; host := Some h;
                    port := match default_port sch with
                            | Some d => if N.eqb d p then None else Some p
                            | None => Some p
                            end |}
      end
  end.

Fixpoint port_state (sch : list N) (h : Host) (buffer rest : list N)
  : option URLRecord :=
  match rest with
  | [] => port_done sch h buffer
  | c :: rest' =>
      if is_ascii_digit c then port_state sch h (buffer ++ [c]) rest'
      else if ends_authority (is_special sch) c then port_done sch h buffer
      else None
  end.

(** Host state. *)
Definition host_done (sch : list N) (buffer : list N) : option URLRecord :=
  if is_special sch && is_empty buffer then None
  else match host_parser buffer (negb (is_special sch)) with
       | None => None
       | Some h =>
           path_start_state {| scheme := sch; host := Some h; port := None |}
       end.

Fixpoint host_state (sch : list N) (insideBrackets : bool)
                    (buffer rest : list N) : option URLRecord :=
  match rest with
  | [] => host_done sch buffer
  | c :: rest' =>
      if N.eqb c colon && negb insideBrackets then
        if is_empty buffer then None
        else match host_parser buffer (negb (is_special sch)) with
             | None => None
             | Some h => port_state sch h [] rest'
             end
      else if ends_authority (is_special sch) c then host_done sch buffer
      else
        host_state sch
                   (if N.eqb c left_bracket then true
                    else if N.eqb c right_bracket then false
                    else insideBrackets)
                   (buffer ++ [c]) rest'
  end.

(** Authority state.  The buffer restarts after every [@]; at the end of the
    authority the pointer goes back to the start of the buffer and the host
    state takes over from there. *)
Fixpoint authority_state (sch : list N) (atSignSeen : bool)
                         (buffer rest : list N) : option URLRecord :=
  match rest with
  | [] =>
      if atSignSeen && is_empty buffer then None
      else host_state sch false [] buffer
  | c :: rest' =>
      if N.eqb c at_sign then authority_state sch true [] rest'
      else if ends_authority (is_special sch) c then
        if atSignSeen && is_empty buffer then None
        else host_state sch false [] (buffer ++ rest)
      else authority_state sch atSignSeen (buffer ++ [c]) rest'
  end.

(** Special authority ignore slashes state. *)
Fixpoint special_authority_ignore_slashes_state (sch rest : list N)
  : option URLRecord :=
  match rest with
  | [] => authority_state sch false [] rest
  | c :: rest' =>
      if N.eqb c slash || N.eqb c backslash
      then special_authority_ignore_slashes_state sch rest'
      else authority_state sch false [] rest
  end.

(** Special authority slashes state. *)
Definition special_authority_slashes_state (sch rest : list N)
  : option URLRecord :=
  match rest with
  | 47%N :: 47%N :: rest' => special_authority_ignore_slashes_state sch rest'
  | _ => special_authority_ignore_slashes_state sch rest
  end.

(** Path or authority state. *)
Definition path_or_authority_state (sch rest : list N) : option URLRecord :=
  match rest with
  | 47%N :: rest' => authority_state sch false [] rest'
  | _ => path_state {| scheme := sch; host := None; port := None |}
  end.

(** *** File URLs *)

Definition file_url (h : Host) : URLRecord :=
  {| scheme := js "file"; host := Some h; port := None |}.

Definition is_windows_drive_letter (s : list N) : bool :=
  match s with
  | [a; b] => is_ascii_alpha a && (N.eqb b colon || N.eqb b 124)
  | _ => false
  end.

Definition ends_file_host (c : N) : bool :=
  N.eqb c slash || N.eqb c backslash || N.eqb c question_mark
  || N.eqb c number_sign.

Definition file_host_done (buffer : list N) : option URLRecord :=
  if is_windows_drive_letter buffer then path_state (file_url EmptyHost)
  else if is_empty buffer then path_start_state (file_url EmptyHost)
  else match host_parser buffer false with
       | None => None
       | Some h =>
           path_start_state
             (file_url match h with
                       | Domain d =>
                           if JS.eqb d (js "localhost") then EmptyHost else h
                       | _ => h
                       end)
       end.

(** File host state. *)
Fixpoint file_host_state (buffer rest : list N) : option URLRecord :=
  match rest with
  | [] => file_host_done buffer
  | c :: rest' =>
      if ends_file_host c then file_host_done buffer
      else file_host_state (buffer ++ [c]) rest'
  end.

(** File slash state. *)
Definition file_slash_state (rest : list N) : option URLRecord :=
  match rest with
  | c :: rest' =>
      if N.eqb c slash || N.eqb c backslash then file_host_state [] rest'
      else path_state (file_url EmptyHost)
  | [] => path_state (file_url EmptyHost)
  end.

(** File state. *)
Definition file_state (rest : list N) : option URLRecord :=
  match rest with
  | c :: rest' =>
      if N.eqb c slash || N.eqb c backslash then file_slash_state rest'
      else path_state (file_url EmptyHost)
  | [] => path_state (file_url EmptyHost)
  end.

(** *** The parser *)

(** What the scheme state does once it has read the [:]. *)
Definition after_scheme (sch rest : list N) : option URLRecord :=
  if JS.eqb sch (js "file") then file_state rest
  else if is_special sch then special_authority_slashes_state sch rest
  else match rest with
       | 47%N :: rest' => path_or_authority_state sch rest'
       | _ => opaque_path_state {| scheme := sch; host := None; port := None |}
       end.

Definition basic_URL_parser (input : list N) : option URLRecord :=
  match scheme_start_state (clean_input input) with
  | NoScheme => no_scheme_state
  | SchemeFound sch rest => after_scheme sch rest
  end.

(** [new URL(url)]: [None] stands for the [TypeError] thrown on failure. *)
Definition new_URL (url : jsstring) : option URLRecord :=
  basic_URL_parser (to_scalar_values url).

End Parser.

End URL.

(* ================================================================== *)
(** ** The validators *)
(* ================================================================== *)

(** [[^\s@]] *)
Definition not_space_not_at : RegExp.Atom :=
  RegExp.CharacterClass true [RegExp.ClassWhiteSpace; RegExp.ClassChar at_sign].

(** [/^[^\s@]+@[^\s@]+\.[^\s@]+$/] *)
Definition emailRegex : RegExp.Pattern :=
  [ RegExp.AssertStart;
    RegExp.TermPlus not_space_not_at;
    RegExp.TermAtom (RegExp.PatternCharacter at_sign);
    RegExp.TermPlus not_space_not_at;
    RegExp.TermAtom (RegExp.PatternCharacter full_stop);
    RegExp.TermPlus not_space_not_at;
    RegExp.AssertEnd ].

(** [validateEmail], lines 27-30. *)
Definition validateEmail (email : jsstring) : bool :=
  RegExp.test emailRegex email.


(* ================================================================== *)
(** ** JSON values and [JSON.stringify] of the payload *)
(* ================================================================== *)

Module JSON.

(** What [response.json()] can resolve with.  The members of an object are
    kept in the order of the text; [JSON.parse] lets a later member replace
    an earlier one of the same name. *)
Inductive Value : Type :=
| JNull
| JBool (b : bool)
| JNumber (x : spec_float)
| JString (s : jsstring)
| JArray (items : list Value)
| JObject (members : list (jsstring * Value)).

(** The result of reading a property: the read throws a [TypeError], or
    gives [undefined], or gives a value. *)
Inductive PropertyRead : Type :=
| ReadThrows
| Undefined
| Read (v : Value).

(** [result.name] for a name that no prototype defines.  Reading a property
    of [null] throws; primitives and arrays have no such property. *)
Definition get (result : Value) (name : jsstring) : PropertyRead :=
  match result with
  | JNull => ReadThrows
  | JObject members =>
      match find (fun m => JS.eqb (fst m) name) (rev members) with
      | Some m => Read (snd m)
      | None => Undefined
      end
  | JBool _ | JNumber _ | JString _ | JArray _ => Undefined
  end.

(** ToBoolean. *)
Definition ToBoolean (r : PropertyRead) : bool :=
  match r with
  | ReadThrows | Undefined => false
  | Read JNull => false
  | Read (JBool b) => b
  | Read (JNumber (S754_zero _)) | Read (JNumber S754_nan) => false
  | Read (JNumber _) => true
  | Read (JString s) => match s with [] => false | _ :: _ => true end
  | Read (JArray _) | Read (JObject _) => true
  end.

Definition hex_digit (n : N) : N :=
  if (n <? 10)%N then (48 + n)%N else (87 + n)%N.

(** [\uXXXX] with lowercase hexadecimal digits. *)
Definition unicode_escape (c : N) : jsstring :=
  [92%N; 117%N; hex_digit (c / 4096); hex_digit ((c / 256) mod 16);
   hex_digit ((c / 16) mod 16); hex_digit (c mod 16)].

(** The two-character escapes of the language definition ([\b], [\t], [\n],
    [\f], [\r], the quotation mark and the backslash); other control
    characters are written as [\uXXXX], everything else as it is. *)
Definition escape_code_unit (c : N) : jsstring :=
  if N.eqb c 8 then [92%N; 98%N]
  else if N.eqb c 9 then [92%N; 116%N]
  else if N.eqb c 10 then [92%N; 110%N]
  else if N.eqb c 12 then [92%N; 102%N]
  else if N.eqb c 13 then [92%N; 114%N]
  else if N.eqb c 34 then [92%N; 34%N]
  else if N.eqb c 92 then [92%N; 92%N]
  else if (c <? 32)%N then unicode_escape c
  else [c].

(** The inside of QuoteJSONString: a surrogate pair is kept, a lone
    surrogate is written as an escape. *)
Fixpoint quote_code_units (s : jsstring) : jsstring :=
  match s with
  | [] => []
  | c :: s' =>
      if URL.is_lead_surrogate c then
        match s' with
        | d :: s'' =>
            if URL.is_trail_surrogate d then c :: d :: quote_code_units s''
            else unicode_escape c ++ quote_code_units s'
        | [] => unicode_escape c
        end
      else if URL.is_trail_surrogate c
           then unicode_escape c ++ quote_code_units s'
           else escape_code_unit c ++ quote_code_units s'
  end.

Definition QuoteJSONString (s : jsstring) : jsstring :=
  34%N :: quote_code_units s ++ [34%N].

Fixpoint join (sep : jsstring) (parts : list jsstring) : jsstring :=
  match parts with
  | [] => []
  | [p] => p
  | p :: ps => p ++ sep ++ join sep ps
  end.

(** [JSON.stringify] of an object whose own properties, in creation order,
    all hold strings; no indentation. *)
Definition stringify_strings (props : list (jsstring * jsstring)) : jsstring :=
  js "{"
  ++ join (js ",")
          (map (fun kv => QuoteJSONString (fst kv) ++ js ":"
                          ++ QuoteJSONString (snd kv)) props)
  ++ js "}".

End JSON.

(* ================================================================== *)
(** ** The component *)
(* ================================================================== *)

(** [interface FormData], lines 9-12. *)
Record FormData : Type := {
  email : jsstring;
  article_url : jsstring
}.

(** [keyof FormData]. *)
Inductive Field : Type :=
| field_email
| field_article_url.

(** The three [useState] cells, lines 15-20. *)
Record State : Type := {
  formData : FormData;
  isLoading : bool;
  isSuccess : bool
}.

Definition initialState : State :=
  {| formData := {| email := []; article_url := [] |};
     isLoading := false;
     isSuccess := false |}.

(** The argument of [toast]. *)
Record Toast : Type := {
  title : string;
  description : string;
  variant : option string
}.

(** The arguments of [fetch]. *)
Record Request : Type := {
  resource : string;
  method : string;
  headers : list (string * string);
  body : jsstring
}.

(** A [Response]; only [response.ok] is read, which the status decides. *)
Record Response : Type := {
  status : N
}.

Definition response_ok (r : Response) : bool := in_range 200 299 (status r).

(** How the promise of [fetch] and the promise of [response.json()] settle. *)
Inductive FetchOutcome : Type :=
| FetchRejected
| FetchFulfilled (response : Response).

Inductive JsonOutcome : Type :=
| JsonRejected
| JsonFulfilled (result : JSON.Value).

(** What a handler does to the world outside the component. *)
Inductive Effect : Type :=
| Toasted (t : Toast)
| Fetched (r : Request).

(** The two [await]s of [handleSubmit], lines 65 and 81. *)
Inductive Pending : Type :=
| AwaitingFetch
| AwaitingJson.

(** *** Handlers: state, effects, exceptions and suspension *)

Inductive Completion (A : Type) : Type :=
| Normal (a : A)
| Throw
| Await (p : Pending).

Arguments Normal {A} a.
Arguments Throw {A}.
Arguments Await {A} p.

Definition Handler (A : Type) : Type :=
  State -> Completion A * State * list Effect.

Definition ret {A : Type} (a : A) : Handler A :=
  fun s => (Normal a, s, []).

Definition bind {A B : Type} (m : Handler A) (k : A -> Handler B) : Handler B :=
  fun s =>
    match m s with
    | (Normal a, s1, e1) =>
        match k a s1 with
        | (c, s2, e2) => (c, s2, e1 ++ e2)
        end
    | (Throw, s1, e1) => (Throw, s1, e1)
    | (Await p, s1, e1) => (Await p, s1, e1)
    end.

Notation "m ;; k" := (bind m (fun _ => k))
  (at level 61, right associativity).

Definition throw : Handler unit := fun s => (Throw, s, []).

Definition await (p : Pending) : Handler unit := fun s => (Await p, s, []).

Definition toast (t : Toast) : Handler unit :=
  fun s => (Normal tt, s, [Toasted t]).

Definition fetch (r : Request) : Handler unit :=
  fun s => (Normal tt, s, [Fetched r]).

Definition setFormData (f : FormData -> FormData) : Handler unit :=
  fun s => (Normal tt,
            {| formData := f (formData s);
               isLoading := isLoading s;
               isSuccess := isSuccess s |}, []).

Definition setIsLoading (b : bool) : Handler unit :=
  fun s => (Normal tt,
            {| formData := formData s;
               isLoading := b;
               isSuccess := isSuccess s |}, []).

Definition setIsSuccess (b : bool) : Handler unit :=
  fun s => (Normal tt,
            {| formData := formData s;
               isLoading := isLoading s;
               isSuccess := b |}, []).

(** [try { body } catch { handler } finally { finalizer }].  A body that is
    suspended at an [await] is still inside the statement: nothing runs until
    it is resumed. *)
Definition try_catch_finally (body handler finalizer : Handler unit)
  : Handler unit :=
  fun s =>
    match body s with
    | (Normal _, s1, e1) =>
        match finalizer s1 with
        | (c, s2, e2) => (c, s2, e1 ++ e2)
        end
    | (Throw, s1, e1) =>
        match (handler ;; finalizer) s1 with
        | (c, s2, e2) => (c, s2, e1 ++ e2)
        end
    | (Await p, s1, e1) => (Await p, s1, e1)
    end.

(** *** Toasts and the request *)

Definition invalidEmailToast : Toast :=
  {| title := "Invalid Email";
     description := "Please enter a valid email address.";
     variant := Some "destructive"%string |}.

Definition invalidUrlToast : Toast :=
  {| title := "Invalid URL";
     description := "Please enter a valid article URL.";
     variant := Some "destructive"%string |}.

Definition successToast : Toast :=
  {| title := "Success";
     description := "Your request has been submitted successfully!";
     variant := None |}.

Definition errorToast : Toast :=
  {| title := "Error";
     description :=
       "Failed to submit request. Please make sure the backend is running.";
     variant := Some "destructive"%string |}.

(** The arguments of the [fetch] call, lines 65-75. *)
Definition submitRequest (data : FormData) : Request :=
  {| resource := "http://localhost:8000/submit";
     method := "POST";
     headers := [ ("Content-Type", "application/json");
                  ("accept", "application/json") ]%string;
     body := JSON.stringify_strings
               [ (js "email", email data);
                 (js "article_url", article_url data) ] |}.

(** Header names are compared without regard to letter case, as the
    [Headers] class of the fetch API does. *)
Definition lower_ascii_char (a : ascii) : ascii :=
  let n := nat_of_ascii a in
  if (65 <=? n)%nat && (n <=? 90)%nat then ascii_of_nat (n + 32) else a.

Fixpoint lower_string (s : string) : string :=
  match s with
  | EmptyString => EmptyString
  | String a s' => String (lower_ascii_char a) (lower_string s')
  end.

Definition header_get (name : string) (hs : list (string * string))
  : option string :=
  match find (fun h => String.eqb (lower_string (fst h)) (lower_string name)) hs with
  | Some h => Some (snd h)
  | None => None
  end.

(** *** The handlers *)

(** [handleInputChange], lines 23-25: [{ ...prev, [field]: value }]. *)
Definition handleInputChange (field : Field) (value : jsstring) : Handler unit :=
  setFormData (fun prev =>
    match field with
    | field_email =>
        {| email := value; article_url := article_url prev |}
    | field_article_url =>
        {| email := email prev; article_url := value |}
    end).

(** [resetForm], lines 103-106. *)
Definition resetForm : Handler unit :=
  setFormData (fun _ => {| email := []; article_url := [] |}) ;;
  setIsSuccess false.

Section Component.

Variable platform : URL.HostPlatform.

(** [validateUrl], lines 32-39: [true] unless the constructor throws. *)
Definition validateUrl (url : jsstring) : bool :=
  match URL.new_URL platform url with
  | Some _ => true
  | None => false
  end.

(** The [catch] and [finally] blocks of [handleSubmit], lines 92-100. *)
Definition catch_block : Handler unit := toast errorToast.

Definition finally_block : Handler unit := setIsLoading false.

Definition in_try (body : Handler unit) : Handler unit :=
  try_catch_finally body catch_block finally_block.

(** The [try] block up to the first [await], lines 65-75. *)
Definition try_block (data : FormData) : Handler unit :=
  fetch (submitRequest data) ;;
  await AwaitingFetch.

(** The [try] block from the point where the promise of [fetch] settles to
    the second [await], lines 65-81. *)
Definition after_fetch (o : FetchOutcome) : Handler unit :=
  match o with
  | FetchRejected => throw
  | FetchFulfilled response =>
      if negb (response_ok response) then throw
      else await AwaitingJson
  end.

(** The rest of the [try] block, lines 81-91. *)
Definition after_json (o : JsonOutcome) : Handler unit :=
  match o with
  | JsonRejected => throw
  | JsonFulfilled result =>
      match JSON.get result (js "ok") with
      | JSON.ReadThrows => throw
      | ok =>
          if JSON.ToBoolean ok then
            setIsSuccess true ;;
            toast successToast
          else throw
      end
  end.

(** [handleSubmit], lines 41-101, up to its first [await].  The handler
    reads [formData] of the render it belongs to. *)
Definition handleSubmit : Handler unit :=
  fun s =>
    let data := formData s in
    (if negb (validateEmail (email data)) then
       toast invalidEmailToast
     else if negb (validateUrl (article_url data)) then
       toast invalidUrlToast
     else
       setIsLoading true ;;
       in_try (try_block data)) s.

(** [handleSubmit] resumed when the promise it awaits settles. *)
Definition resume_fetch (o : FetchOutcome) : Handler unit :=
  in_try (after_fetch o).

Definition resume_json (o : JsonOutcome) : Handler unit :=
  in_try (after_json o).

(** *** What is rendered, lines 108-189 *)

Inductive View : Type :=
| SuccessPanel
| FormView (emailValue urlValue : jsstring)
           (submitDisabled : bool) (submitLabel : string).

Definition render (s : State) : View :=
  if isSuccess s then SuccessPanel
  else FormView (email (formData s)) (article_url (formData s))
                (isLoading s)
                (if isLoading s then "Processing..." else "Submit Request").

(** The three modes of the view. *)
Inductive ViewStatus : Type :=
| Idle
| Submitting
| Succeeded.

Definition viewStatus (s : State) : ViewStatus :=
  match render s with
  | SuccessPanel => Succeeded
  | FormView _ _ true _ => Submitting
  | FormView _ _ false _ => Idle
  end.

(** *** The event loop *)

(** The component together with the calls of [handleSubmit] that are
    suspended and everything the handlers have done so far, oldest first. *)
Record World : Type := {
  state : State;
  pending : list Pending;
  effects : list Effect
}.

Definition initialWorld : World :=
  {| state := initialState; pending := []; effects := [] |}.

Inductive Event : Type :=
| Change (field : Field) (value : jsstring)
| SubmitForm
| ClickReset
| FetchSettles (i : nat) (o : FetchOutcome)
| JsonSettles (i : nat) (o : JsonOutcome).

(** The inputs and the form exist only in the form view, the reset button
    only in the success panel; a disabled submit button submits nothing. *)
Definition inputs_shown (v : View) : bool :=
  match v with
  | FormView _ _ _ _ => true
  | SuccessPanel => false
  end.

Definition submit_enabled (v : View) : bool :=
  match v with
  | FormView _ _ disabled _ => negb disabled
  | SuccessPanel => false
  end.

Definition reset_shown (v : View) : bool :=
  match v with
  | SuccessPanel => true
  | FormView _ _ _ _ => false
  end.

Fixpoint remove_nth {A : Type} (i : nat) (l : list A) : list A :=
  match l, i with
  | [], _ => []
  | _ :: l', O => l'
  | a :: l', S i' => a :: remove_nth i' l'
  end.

Fixpoint replace_nth {A : Type} (i : nat) (a : A) (l : list A) : list A :=
  match l, i with
  | [], _ => []
  | _ :: l', O => a :: l'
  | b :: l', S i' => b :: replace_nth i' a l'
  end.

(** A handler called from the user interface: a call that suspends joins
    the pending calls. *)
Definition call (h : Handler unit) (w : World) : World :=
  match h (state w) with
  | (Await p, s, e) =>
      {| state := s; pending := pending w ++ [p]; effects := effects w ++ e |}
  | (_, s, e) =>
      {| state := s; pending := pending w; effects := effects w ++ e |}
  end.

(** Pending call [i] resumed: it suspends again or it is over. *)
Definition continue (i : nat) (h : Handler unit) (w : World) : World :=
  match h (state w) with
  | (Await p, s, e) =>
      {| state := s; pending := replace_nth i p (pending w);
         effects := effects w ++ e |}
  | (_, s, e) =>
      {| state := s; pending := remove_nth i (pending w);
         effects := effects w ++ e |}
  end.

(** One event; [None] when the event cannot happen in this world. *)
Definition step (w : World) (e : Event) : option World :=
  match e with
  | Change field value =>
      if inputs_shown (render (state w))
      then Some (call (handleInputChange field value) w)
      else None
  | SubmitForm =>
      if submit_enabled (render (state w))
      then Some (call handleSubmit w)
      else None
  | ClickReset =>
      if reset_shown (render (state w))
      then Some (call resetForm w)
      else None
  | FetchSettles i o =>
      match nth_error (pending w) i with
      | Some AwaitingFetch => Some (continue i (resume_fetch o) w)
      | _ => None
      end
  | JsonSettles i o =>
      match nth_error (pending w) i with
      | Some AwaitingJson => Some (continue i (resume_json o) w)
      | _ => None
      end
  end.

Fixpoint run (w : World) (events : list Event) : option World :=
  match events with
  | [] => Some w
  | e :: events' =>
      match step w e with
      | Some w' => run w' events'
      | None => None
      end
  end.

Inductive reachable : World -> Prop :=
| reachable_initial : reachable initialWorld
| reachable_step (w w' : World) (e : Event) :
    reachable w -> step w e = Some w' -> reachable w'.

Definition toasts (w : World) : list Toast :=
  flat_map (fun e => match e with Toasted t => [t] | Fetched _ => [] end)
           (effects w).

Definition requests (w : World) : list Request :=
  flat_map (fun e => match e with Fetched r => [r] | Toasted _ => [] end)
           (effects w).

(** What the backend does with one request: nothing arrives, or a response
    with a status and a body that parses as JSON or does not. *)
Inductive Backend : Type :=
| NetworkError
| Responds (status : N) (parsed : option JSON.Value).

(** The events by which pending call [i] sees the backend's answer: the body
    is read only after a response that is [ok]. *)
Definition answer (i : nat) (b : Backend) : list Event :=
  match b with
  | NetworkError => [FetchSettles i FetchRejected]
  | Responds st parsed =>
      FetchSettles i (FetchFulfilled {| status := st |})
      :: (if in_range 200 299 st
          then [JsonSettles i match parsed with
                              | Some v => JsonFulfilled v
                              | None => JsonRejected
                              end]
          else [])
  end.

End Component.

(* ================================================================== *)
(** ** Vocabulary of the properties *)
(* ================================================================== *)

(** A run of code units that [[^\s@]+] can consume. *)
Definition local_part_ok (s : jsstring) : bool :=
  forallb (RegExp.atom_matches not_space_not_at) s.

(** A string has a scheme when, once cleaned up, it starts with a letter,
    goes on with letters, digits, [+], [-] and [.], and reaches a [:]. *)
Definition has_scheme (v : jsstring) : Prop :=
  exists first name rest,
    URL.clean_input (URL.to_scalar_values v) = first :: name ++ URL.colon :: rest
    /\ is_ascii_alpha first = true
    /\ forallb URL.is_scheme_code_point name = true.

(** A platform without IPv6 literals and without international domain
    names, for runs on concrete inputs. *)
Definition plain_platform : URL.HostPlatform :=
  {| URL.IPv6_parser := fun _ => None;
     URL.Unicode_ToASCII := fun _ => None |}.

(** *** Reading the request body back

    What a JSON reader makes of a string literal, and of an object with the
    two members of the payload. *)

Definition hex_value (c : N) : option N :=
  if is_ascii_digit c then Some (c - 48)%N
  else if in_range 97 102 c then Some (c - 87)%N
  else if in_range 65 70 c then Some (c - 55)%N
  else None.

Definition unescape (e : N) : option N :=
  if N.eqb e 98 then Some 8%N
  else if N.eqb e 116 then Some 9%N
  else if N.eqb e 110 then Some 10%N
  else if N.eqb e 102 then Some 12%N
  else if N.eqb e 114 then Some 13%N
  else if N.eqb e 34 then Some 34%N
  else if N.eqb e 92 then Some 92%N
  else if N.eqb e 47 then Some 47%N
  else None.

Definition prepend (c : option N) (r : option (jsstring * jsstring))
  : option (jsstring * jsstring) :=
  match c, r with
  | Some c, Some (str, after) => Some (c :: str, after)
  | _, _ => None
  end.

(** The characters of a string literal after its opening quotation mark,
    and what follows the closing one. *)
Fixpoint read_string_tail (s : jsstring) : option (jsstring * jsstring) :=
  match s with
  | [] => None
  | c :: rest =>
      if N.eqb c 34 then Some ([], rest)
      else if N.eqb c 92 then
        match rest with
        | [] => None
        | e :: rest1 =>
            if N.eqb e 117 then
              match rest1 with
              | x3 :: x2 :: x1 :: x0 :: rest2 =>
                  match hex_value x3, hex_value x2, hex_value x1, hex_value x0 with
                  | Some h3, Some h2, Some h1, Some h0 =>
                      prepend (Some (h3 * 4096 + h2 * 256 + h1 * 16 + h0)%N)
                              (read_string_tail rest2)
                  | _, _, _, _ => None
                  end
              | _ => None
              end
            else prepend (unescape e) (read_string_tail rest1)
        end
      else if (c <? 32)%N then None
      else prepend (Some c) (read_string_tail rest)
  end.

Definition read_string (s : jsstring) : option (jsstring * jsstring) :=
  match s with
  | 34%N :: tail => read_string_tail tail
  | _ => None
  end.

(** The form data in a body of the shape
    [{"email":<string>,"article_url":<string>}]. *)
Definition read_payload (text : jsstring) : option FormData :=
  match text with
  | 123%N :: t0 =>
      match read_string t0 with
      | Some (k1, 58%N :: t1) =>
          match read_string t1 with
          | Some (v1, 44%N :: t2) =>
              match read_string t2 with
              | Some (k2, 58%N :: t3) =>
                  match read_string t3 with
                  | Some (v2, [125%N]) =>
                      if JS.eqb k1 (js "email") && JS.eqb k2 (js "article_url")
                      then Some {| email := v1; article_url := v2 |}
                      else None
                  | _ => None
                  end
              | _ => None
              end
          | _ => None
          end
      | _ => None
      end
  | _ => None
  end.

(** The value of one field. *)
Definition field_value (f : Field) (d : FormData) : jsstring :=
  match f with
  | field_email => email d
  | field_article_url => article_url d
  end.

(** The body [{"ok": true}]. *)
Definition ok_true : JSON.Value := JSON.JObject [(js "ok", JSON.JBool true)].

(** Does [handleSubmit] take the success branch on this result of
    [response.json()]? *)
Definition accepted (o : JsonOutcome) : bool :=
  match o with
  | JsonRejected => false
  | JsonFulfilled result => JSON.ToBoolean (JSON.get result (js "ok"))
  end.

(** The settlements that end a submission in the [catch] block: [fetch]
    rejects, the response is not [ok], [response.json()] rejects, or the
    result has no truthy [ok]. *)
Definition failure_event (e : Event) : bool :=
  match e with
  | FetchSettles _ FetchRejected => true
  | FetchSettles _ (FetchFulfilled response) => negb (response_ok response)
  | JsonSettles _ o => negb (accepted o)
  | Change _ _ | SubmitForm | ClickReset => false
  end.

(** What holds between the flags and the suspended calls in every world the
    event loop reaches. *)
Definition consistent (w : World) : Prop :=
  (pending w = [] /\ isLoading (state w) = false)
  \/ (exists p, pending w = [p]
                /\ isLoading (state w) = true
                /\ isSuccess (state w) = false).

(** What the [catch] block followed by the [finally] block leaves. *)
Definition caught (s : State) : Completion unit * State * list Effect :=
  (Normal tt,
   {| formData := formData s; isLoading := false; isSuccess := isSuccess s |},
   [Toasted errorToast]).

(** A request as [handleSubmit] sends it for the given form data. *)
Definition is_submit_post (data : FormData) (r : Request) : Prop :=
  resource r = "http://localhost:8000/submit"%string
  /\ method r = "POST"%string
  /\ header_get "Content-Type" (headers r) = Some "application/json"%string
  /\ header_get "Accept" (headers r) = Some "application/json"%string
  /\ body r = JSON.stringify_strings
                [ (js "email", email data);
                  (js "article_url", article_url data) ]
  /\ read_payload (body r) = Some data.

(** The user types an address and a URL that pass both validators. *)
Definition typing : list Event :=
  [ Change field_email (js "user@example.com");
    Change field_article_url (js "https://example.com/a") ].

Definition typed : FormData :=
  {| email := js "user@example.com";
     article_url := js "https://example.com/a" |}.

(** A response with status 200. *)
Definition status_200 : FetchOutcome := FetchFulfilled {| status := 200 |}.

(** The world a run of events leaves on [plain_platform], starting from the
    first render; events that cannot happen end the run where it stands. *)
Fixpoint world_after_from (w : World) (events : list Event) : World :=
  match events with
  | [] => w
  | e :: events' =>
      match step plain_platform w e with
      | Some w' => world_after_from w' events'
      | None => w
      end
  end.

Definition world_after (events : list Event) : World :=
  world_after_from initialWorld events.

(** The form is filled in and submitted; the request is on its way. *)
Definition in_flight : list Event := typing ++ [SubmitForm].

(** Bodies whose [ok] is not [true] and yet truthy. *)
Definition ok_one : JSON.Value :=
  JSON.JObject [(js "ok", JSON.JNumber (S754_finite false 1 0))].

Definition ok_yes : JSON.Value :=
  JSON.JObject [(js "ok", JSON.JString (js "yes"))].

Definition ok_false : JSON.Value := JSON.JObject [(js "ok", JSON.JBool false)].

(** *** Further vocabulary *)

(** A code unit that is neither white space nor [@]. *)
Definition plain_code_unit (c : N) : bool :=
  negb (RegExp.is_white_space c) && negb (N.eqb c at_sign).

(** Both validators accept the form data. *)
Definition validated (platform : URL.HostPlatform) (d : FormData) : bool :=
  validateEmail (email d) && validateUrl platform (article_url d).

Definition toast_eqb (a b : Toast) : bool :=
  String.eqb (title a) (title b)
  && String.eqb (description a) (description b)
  && match variant a, variant b with
     | Some x, Some y => String.eqb x y
     | None, None => true
     | _, _ => false
     end.

(** How often a toast has been shown. *)
Definition count_toast (t : Toast) (w : World) : nat :=
  length (filter (toast_eqb t) (toasts w)).

(** Code points that the URL parser strips from both ends of its input. *)
Definition padding (s : list N) : bool :=
  forallb URL.is_C0_control_or_space s.

Definition is_slash (c : N) : bool :=
  N.eqb c URL.slash || N.eqb c URL.backslash.

(* ================================================================== *)
(** * Properties *)
(* ================================================================== *)

(** ** The email pattern *)

Section EmailPattern.

Import RegExp.

(** A run of [a+]: some non-empty prefix of code units that all match [a],
    after which the rest of the pattern matches. *)
Lemma plus_matcher_true (a : Atom) (c : Continuation) :
  forall rest i,
    plus_matcher a i rest c = true <->
    exists pre post,
      rest = pre ++ post /\ pre <> [] /\
      forallb (atom_matches a) pre = true /\
      c (i + length pre) post = true.
Proof.
  induction rest as [|ch rest IH]; intros i; cbn [plus_matcher].
  - split; [discriminate|].
    intros (pre & post & E & NE & _). destruct pre; [congruence|discriminate].
  - destruct (atom_matches a ch) eqn:M.
    + rewrite orb_true_iff, IH. split.
      * intros [(pre & post & -> & NE & F & K) | K].
        -- exists (ch :: pre), post. cbn [forallb length app]. rewrite M, F.
           repeat split; try discriminate.
           now rewrite Nat.add_succ_r.
        -- exists [ch], rest. cbn [forallb length app]. rewrite M.
           repeat split; try discriminate.
           now rewrite Nat.add_1_r.
      * intros (pre & post & E & NE & F & K).
        destruct pre as [|x pre]; [congruence|].
        cbn [app] in E. injection E as <- ->.
        cbn [forallb] in F. apply andb_true_iff in F as [_ F].
        destruct pre as [|y pre].
        -- right. cbn [length app] in *. now rewrite Nat.add_1_r in K.
        -- left. exists (y :: pre), post.
           repeat split; try discriminate; auto.
           cbn [length] in *. now rewrite Nat.add_succ_r in K.
    + split; [discriminate|].
      intros (pre & post & E & NE & F & _).
      destruct pre as [|x pre]; [congruence|].
      cbn [app] in E. injection E as <- ->.
      cbn [forallb] in F. rewrite M in F. discriminate.
Qed.

(** A pattern that starts with [^] matches at index 0 only. *)
Lemma exec_from_anchored (p : Pattern) :
  forall rest i, i <> 0 -> exec_from (AssertStart :: p) i rest = false.
Proof.
  induction rest as [|ch rest IH]; intros i Hi; cbn.
  - destruct i; [congruence|reflexivity].
  - rewrite IH by discriminate. destruct i; [congruence|reflexivity].
Qed.

Lemma test_anchored (p : Pattern) (s : jsstring) :
  test (AssertStart :: p) s = alternative_matcher p 0 s (fun _ _ => true).
Proof.
  unfold test. destruct s as [|ch s]; cbn.
  - now rewrite orb_false_r.
  - rewrite exec_from_anchored by discriminate. now rewrite orb_false_r.
Qed.

End EmailPattern.

Lemma local_part_ok_no_at (s : jsstring) :
  local_part_ok s = true -> ~ In at_sign s.
Proof.
  unfold local_part_ok. rewrite forallb_forall. intros H Hin.
  specialize (H _ Hin). vm_compute in H. discriminate.
Qed.

(** [validateEmail] accepts exactly the strings [l@d.t] where [l], [d] and
    [t] are non-empty and hold neither white space nor [@]. *)
Lemma validateEmail_true_iff (s : jsstring) :
  validateEmail s = true <->
  exists l d t,
    s = l ++ at_sign :: d ++ full_stop :: t /\
    l <> [] /\ d <> [] /\ t <> [] /\
    local_part_ok l = true /\ local_part_ok d = true /\ local_part_ok t = true.
Proof.
  unfold validateEmail, emailRegex. rewrite test_anchored.
  cbn [RegExp.alternative_matcher RegExp.term_matcher].
  rewrite plus_matcher_true. split.
  - intros (l & r & -> & Hl & Fl & K).
    destruct r as [|c r]; [discriminate|].
    destruct (RegExp.atom_matches (RegExp.PatternCharacter at_sign) c) eqn:Ec;
      [|discriminate].
    cbn in Ec. apply N.eqb_eq in Ec. subst c.
    apply plus_matcher_true in K as (d & r' & -> & Hd & Fd & K).
    destruct r' as [|c r']; [discriminate|].
    destruct (RegExp.atom_matches (RegExp.PatternCharacter full_stop) c) eqn:Ec;
      [|discriminate].
    cbn in Ec. apply N.eqb_eq in Ec. subst c.
    apply plus_matcher_true in K as (t & r'' & -> & Ht & Ft & K).
    destruct r'' as [|c r'']; [|discriminate].
    exists l, d, t. rewrite app_nil_r. repeat split; auto.
  - intros (l & d & t & -> & Hl & Hd & Ht & Fl & Fd & Ft).
    exists l, (at_sign :: d ++ full_stop :: t). repeat split; auto.
    cbn [RegExp.atom_matches]. rewrite N.eqb_refl.
    apply plus_matcher_true.
    exists d, (full_stop :: t). repeat split; auto.
    cbn [RegExp.atom_matches]. rewrite N.eqb_refl.
    apply plus_matcher_true.
    exists t, []. rewrite app_nil_r. repeat split; auto.
Qed.

(** Where a code unit occurs once, the text around it is determined. *)
Lemma split_at_unique (x : N) :
  forall l1 r1 l2 r2 : list N,
    ~ In x l1 -> ~ In x r1 ->
    l1 ++ x :: r1 = l2 ++ x :: r2 -> l1 = l2 /\ r1 = r2.
Proof.
  induction l1 as [|a l1 IH]; intros r1 l2 r2 N1 N2 E.
  - destruct l2 as [|b l2]; cbn in E.
    + injection E as ->. auto.
    + injection E as <- ->. exfalso. apply N2. apply in_or_app. right. now left.
  - destruct l2 as [|b l2]; cbn in E.
    + injection E as -> _. exfalso. apply N1. now left.
    + injection E as <- E.
      destruct (IH r1 l2 r2) as [-> ->]; auto.
      intros Hin. apply N1. now right.
Qed.

(** C6. [validateEmail] returns false for every string with no [@], and for
    every string in which some [@] has no [.] after it; it returns true for
    [user@example.com]. *)
Theorem validateEmail_needs_at_and_dot :
  (forall s : jsstring,
      ~ In at_sign s \/
      (exists pre post, s = pre ++ at_sign :: post /\ ~ In full_stop post) ->
      validateEmail s = false)
  /\ validateEmail (js "user@example.com") = true.
Proof.
  split; [|reflexivity].
  intros s H. destruct (validateEmail s) eqn:V; [exfalso|reflexivity].
  apply validateEmail_true_iff in V
    as (l & d & t & -> & _ & _ & _ & Fl & Fd & Ft).
  destruct H as [H | (pre & post & E & H)].
  - apply H. apply in_or_app. right. now left.
  - apply split_at_unique in E as [_ <-].
    + apply H. apply in_or_app. right. now left.
    + now apply local_part_ok_no_at.
    + intros Hin. apply in_app_or in Hin as [Hin | [Hin | Hin]].
      * now apply (local_part_ok_no_at d).
      * discriminate.
      * now apply (local_part_ok_no_at t).
Qed.

(** C6 at two inputs: no [@] at all, and an [@] with no [.] after it. *)
Lemma validateEmail_needs_at_and_dot_witness :
  validateEmail (js "user.example.com") = false
  /\ validateEmail (js "first.last@localhost") = false.
Proof.
  split; apply (proj1 validateEmail_needs_at_and_dot).
  - left. vm_compute. intros H.
    repeat (destruct H as [H|H]; [discriminate|]). exact H.
  - right. exists (js "first.last"), (js "localhost"). split; [reflexivity|].
    vm_compute. intros H.
    repeat (destruct H as [H|H]; [discriminate|]). exact H.
Defined.

(** ** URLs *)

Lemma scheme_state_found :
  forall rest buffer sch rem,
    URL.scheme_state buffer rest = URL.SchemeFound sch rem ->
    exists name,
      rest = name ++ URL.colon :: rem
      /\ forallb URL.is_scheme_code_point name = true
      /\ sch = buffer ++ map ascii_lower name.
Proof.
  induction rest as [|c rest IH]; intros buffer sch rem H; cbn in H.
  - discriminate.
  - destruct (URL.is_scheme_code_point c) eqn:Ec.
    + apply IH in H as (name & -> & F & ->).
      exists (c :: name). cbn. rewrite Ec, F, <- app_assoc. auto.
    + destruct (N.eqb c URL.colon) eqn:Ecolon; [|discriminate].
      apply N.eqb_eq in Ecolon. injection H as <- <-. subst c.
      exists []. cbn. now rewrite app_nil_r.
Qed.

Lemma scheme_start_state_found (input sch rem : list N) :
  URL.scheme_start_state input = URL.SchemeFound sch rem ->
  exists first name,
    input = first :: name ++ URL.colon :: rem
    /\ is_ascii_alpha first = true
    /\ forallb URL.is_scheme_code_point name = true.
Proof.
  destruct input as [|c rest]; cbn; [discriminate|].
  destruct (is_ascii_alpha c) eqn:Ea; [|discriminate].
  intros H. apply scheme_state_found in H as (name & -> & F & _).
  now exists c, name.
Qed.

Section UrlValidation.

Variable platform : URL.HostPlatform.

(** Parsing succeeds only on an input that has a scheme. *)
Lemma new_URL_has_scheme (v : jsstring) (u : URL.URLRecord) :
  URL.new_URL platform v = Some u -> has_scheme v.
Proof.
  unfold URL.new_URL, URL.basic_URL_parser, has_scheme.
  destruct (URL.scheme_start_state (URL.clean_input (URL.to_scalar_values v)))
    as [sch rem|] eqn:E; [|discriminate].
  intros _. apply scheme_start_state_found in E as (first & name & E & A & F).
  now exists first, name, rem.
Qed.

(** C1, as the code has it.  [validateUrl] returns true exactly when
    [new URL] accepts the string; every string without a scheme, so every
    relative path, is rejected, and so is ["not a url"];
    ["https://example.com/a"] is accepted.  A scheme is necessary, an
    authority is not: ["mailto:a@b.c"] is accepted. *)
Theorem validateUrl_accepts_what_new_URL_parses :
  (forall v, validateUrl platform v = true <->
             exists u, URL.new_URL platform v = Some u)
  /\ (forall v, ~ has_scheme v -> validateUrl platform v = false)
  /\ validateUrl platform (js "not a url") = false
  /\ validateUrl platform (js "https://example.com/a") = true
  /\ validateUrl platform (js "mailto:a@b.c") = true.
Proof.
  split; [|split; [|split; [|split]]].
  - intros v. unfold validateUrl.
    destruct (URL.new_URL platform v) as [u|]; split.
    + intros _. now exists u.
    + reflexivity.
    + discriminate.
    + intros [u H]. discriminate.
  - intros v H. unfold validateUrl.
    destruct (URL.new_URL platform v) as [u|] eqn:E; [|reflexivity].
    exfalso. apply H. now apply new_URL_has_scheme with u.
  - reflexivity.
  - reflexivity.
  - reflexivity.
Qed.

End UrlValidation.

(** C1 at a relative path. *)
Lemma validateUrl_accepts_what_new_URL_parses_witness :
  validateUrl plain_platform (js "/articles/2024/index.html") = false.
Proof.
  apply (proj1 (proj2 (validateUrl_accepts_what_new_URL_parses plain_platform))).
  intros (first & name & rest & E & A & _).
  vm_compute in E. injection E as <- _. discriminate.
Defined.

(** C1 as stated fails: [validateUrl] accepts ["mailto:a@b.c"], which has a
    scheme and no authority (its host is null). *)
Lemma validateUrl_accepts_URL_without_authority :
  (forall platform, validateUrl platform (js "mailto:a@b.c") = true)
  /\ (forall platform,
        ~ exists u, URL.new_URL platform (js "mailto:a@b.c") = Some u
                    /\ URL.host u <> None).
Proof.
  split; intros platform; [reflexivity|].
  intros (u & E & H). vm_compute in E. injection E as <-. now apply H.
Qed.

(** ** The handlers, one run at a time *)

Section Handlers.

Variable platform : URL.HostPlatform.

Lemma handleSubmit_invalid_email (s : State) :
  validateEmail (email (formData s)) = false ->
  handleSubmit platform s = (Normal tt, s, [Toasted invalidEmailToast]).
Proof. unfold handleSubmit. intros ->. reflexivity. Qed.

Lemma handleSubmit_invalid_url (s : State) :
  validateEmail (email (formData s)) = true ->
  validateUrl platform (article_url (formData s)) = false ->
  handleSubmit platform s = (Normal tt, s, [Toasted invalidUrlToast]).
Proof. unfold handleSubmit. intros -> ->. reflexivity. Qed.

Lemma handleSubmit_valid (s : State) :
  validateEmail (email (formData s)) = true ->
  validateUrl platform (article_url (formData s)) = true ->
  handleSubmit platform s =
  (Await AwaitingFetch,
   {| formData := formData s; isLoading := true; isSuccess := isSuccess s |},
   [Fetched (submitRequest (formData s))]).
Proof. unfold handleSubmit. intros -> ->. reflexivity. Qed.

Lemma resume_fetch_failure (o : FetchOutcome) (s : State) :
  failure_event (FetchSettles 0 o) = true -> resume_fetch o s = caught s.
Proof.
  destruct o as [|r]; cbn; [reflexivity|].
  unfold resume_fetch, in_try, try_catch_finally, after_fetch.
  intros ->. reflexivity.
Qed.

Lemma resume_fetch_ok (r : Response) (s : State) :
  response_ok r = true ->
  resume_fetch (FetchFulfilled r) s = (Await AwaitingJson, s, []).
Proof.
  unfold resume_fetch, in_try, try_catch_finally, after_fetch.
  intros ->. reflexivity.
Qed.

Lemma resume_json_failure (o : JsonOutcome) (s : State) :
  accepted o = false -> resume_json o s = caught s.
Proof.
  destruct o as [|v]; [reflexivity|].
  unfold accepted, resume_json, in_try, try_catch_finally, after_json.
  destruct (JSON.get v (js "ok")) as [| |ok]; [reflexivity| |];
    intros H; cbv beta iota; rewrite H; reflexivity.
Qed.

Lemma resume_json_success (o : JsonOutcome) (s : State) :
  accepted o = true ->
  resume_json o s =
  (Normal tt,
   {| formData := formData s; isLoading := false; isSuccess := true |},
   [Toasted successToast]).
Proof.
  destruct o as [|v]; [discriminate|].
  unfold accepted, resume_json, in_try, try_catch_finally, after_json.
  destruct (JSON.get v (js "ok")) as [| |ok]; [discriminate| |];
    intros H; cbv beta iota; rewrite H; reflexivity.
Qed.

End Handlers.

(** ** The event loop *)

Section EventLoop.

Variable platform : URL.HostPlatform.

Lemma run_reachable (events : list Event) :
  forall w w',
    reachable platform w -> run platform w events = Some w' ->
    reachable platform w'.
Proof.
  induction events as [|e events IH]; intros w w' R H; cbn in H.
  - now injection H as <-.
  - destruct (step platform w e) as [w1|] eqn:E; [|discriminate].
    eapply IH; [|exact H]. now apply reachable_step with w e.
Qed.

(** The only index into a one-element list is 0. *)
Lemma nth_error_singleton (A : Type) (a b : A) (i : nat) :
  nth_error [a] i = Some b -> i = 0 /\ a = b.
Proof.
  destruct i as [|i]; cbn.
  - intros H. injection H as <-. auto.
  - destruct i; discriminate.
Qed.

Lemma consistent_step (w w' : World) (e : Event) :
  consistent w -> step platform w e = Some w' -> consistent w'.
Proof.
  destruct w as [[data loading success] pend eff].
  unfold consistent. cbn [state pending isLoading isSuccess].
  intros C H. destruct e as [f v| | |i o|i o]; cbn in H.
  - (* Change *)
    destruct success; [discriminate|]. injection H as <-. exact C.
  - (* SubmitForm *)
    destruct success; [discriminate|].
    destruct loading; [discriminate|]. cbn in H. injection H as <-.
    destruct C as [[-> _] | (p & _ & L & _)]; [|discriminate].
    unfold call. cbn [state].
    destruct (validateEmail data.(email)) eqn:Ve.
    + destruct (validateUrl platform data.(article_url)) eqn:Vu.
      * rewrite handleSubmit_valid by assumption. cbn.
        right. now exists AwaitingFetch.
      * rewrite handleSubmit_invalid_url by assumption. cbn. now left.
    + rewrite handleSubmit_invalid_email by assumption. cbn. now left.
  - (* ClickReset *)
    destruct success; [|discriminate]. injection H as <-. cbn.
    destruct C as [C | (p & _ & _ & S)]; [now left | discriminate].
  - (* FetchSettles *)
    destruct (nth_error pend i) as [[|]|] eqn:Ei; try discriminate.
    injection H as <-.
    destruct C as [[-> _] | (p & -> & L & S)]; [destruct i; discriminate|].
    apply nth_error_singleton in Ei as [-> ->].
    unfold continue. cbn [state pending].
    destruct (failure_event (FetchSettles 0 o)) eqn:F.
    + rewrite resume_fetch_failure by assumption. cbn. now left.
    + destruct o as [|r]; [discriminate|]. cbn in F.
      apply negb_false_iff in F. rewrite resume_fetch_ok by assumption.
      cbn. right. now exists AwaitingJson.
  - (* JsonSettles *)
    destruct (nth_error pend i) as [[|]|] eqn:Ei; try discriminate.
    injection H as <-.
    destruct C as [[-> _] | (p & -> & L & S)]; [destruct i; discriminate|].
    apply nth_error_singleton in Ei as [-> ->].
    unfold continue. cbn [state pending].
    destruct (accepted o) eqn:A.
    + rewrite resume_json_success by assumption. cbn. now left.
    + rewrite resume_json_failure by assumption. cbn. now left.
Qed.

(** A pending call is the only one; while it is pending [isLoading] is set
    and [isSuccess] is not. *)
Lemma consistent_pending (w : World) (i : nat) (p : Pending) :
  consistent w -> nth_error (pending w) i = Some p ->
  i = 0 /\ pending w = [p]
  /\ isLoading (state w) = true /\ isSuccess (state w) = false.
Proof.
  intros [[E _] | (q & E & L & S)] H; rewrite E in H.
  - destruct i; discriminate.
  - apply nth_error_singleton in H as [-> ->]. auto.
Qed.

Lemma reachable_consistent (w : World) :
  reachable platform w -> consistent w.
Proof.
  induction 1 as [|w w' e _ IH H].
  - now left.
  - now apply consistent_step with w e.
Qed.

(** In a consistent world the view is decided by the pending calls. *)
Lemma consistent_views (w : World) :
  consistent w ->
  (viewStatus (state w) = Submitting <-> pending w <> []).
Proof.
  destruct w as [[data loading success] pend eff].
  unfold consistent, viewStatus, render. cbn.
  intros [[-> ->] | (p & -> & -> & ->)].
  - destruct success; split; intros H; congruence.
  - split; [discriminate|reflexivity].
Qed.

(** A settlement that fails ends the call in the [catch] block. *)
Lemma step_failure (w w' : World) (e : Event) :
  consistent w -> failure_event e = true -> step platform w e = Some w' ->
  w' = {| state := {| formData := formData (state w);
                      isLoading := false; isSuccess := false |};
          pending := [];
          effects := effects w ++ [Toasted errorToast] |}.
Proof.
  intros C F H. destruct e as [f v| | |i o|i o]; try discriminate; cbn in H.
  - destruct (nth_error (pending w) i) as [[|]|] eqn:Ei; try discriminate.
    injection H as <-.
    apply consistent_pending with (1 := C) in Ei as (-> & E & _ & S).
    unfold continue. rewrite resume_fetch_failure by assumption.
    cbn. now rewrite E, S.
  - destruct (nth_error (pending w) i) as [[|]|] eqn:Ei; try discriminate.
    injection H as <-.
    apply consistent_pending with (1 := C) in Ei as (-> & E & _ & S).
    unfold continue. cbn in F. apply negb_true_iff in F.
    rewrite resume_json_failure by assumption.
    cbn. now rewrite E, S.
Qed.

(** A response that is [ok] moves the call to its second [await]. *)
Lemma step_fetch_ok (w : World) (i : nat) (r : Response) :
  consistent w -> nth_error (pending w) i = Some AwaitingFetch ->
  response_ok r = true ->
  step platform w (FetchSettles i (FetchFulfilled r)) =
  Some {| state := state w; pending := [AwaitingJson]; effects := effects w |}.
Proof.
  intros C Ei R. cbn. rewrite Ei.
  apply consistent_pending with (1 := C) in Ei as (-> & E & _ & _).
  unfold continue. rewrite resume_fetch_ok by assumption.
  cbn. now rewrite E, app_nil_r.
Qed.

(** A result with a truthy [ok] ends the call in the success branch. *)
Lemma step_json_success (w : World) (i : nat) (o : JsonOutcome) :
  consistent w -> nth_error (pending w) i = Some AwaitingJson ->
  accepted o = true ->
  step platform w (JsonSettles i o) =
  Some {| state := {| formData := formData (state w);
                      isLoading := false; isSuccess := true |};
          pending := [];
          effects := effects w ++ [Toasted successToast] |}.
Proof.
  intros C Ei A. cbn. rewrite Ei.
  apply consistent_pending with (1 := C) in Ei as (-> & E & _ & _).
  unfold continue. rewrite resume_json_success by assumption.
  cbn. now rewrite E.
Qed.

Lemma requests_app (w : World) (es : list Effect) :
  flat_map (fun e => match e with Fetched r => [r] | Toasted _ => [] end)
           (effects w ++ es)
  = requests w
    ++ flat_map (fun e => match e with Fetched r => [r] | Toasted _ => [] end) es.
Proof. unfold requests. apply flat_map_app. Qed.

End EventLoop.

(** ** The request body reads back as the form data *)

Lemma hex_digit_value (n : N) :
  (n < 16)%N -> hex_value (JSON.hex_digit n) = Some n.
Proof.
  intros H. destruct n as [|p]; [reflexivity|].
  do 4 (destruct p as [p|p|]; try reflexivity); lia.
Qed.

Lemma four_hex_digits (c : N) :
  (c / 4096 * 4096 + (c / 256) mod 16 * 256 + (c / 16) mod 16 * 16 + c mod 16
   = c)%N.
Proof.
  pose proof (N.div_mod c 16) as E0.
  pose proof (N.div_mod (c / 16) 16) as E1.
  pose proof (N.div_mod (c / 16 / 16) 16) as E2.
  rewrite N.Div0.div_div in E1, E2.
  change (16 * 16)%N with 256%N in E1, E2.
  rewrite N.Div0.div_div in E2.
  change (256 * 16)%N with 4096%N in E2.
  specialize (E0 ltac:(discriminate)).
  specialize (E1 ltac:(discriminate)).
  specialize (E2 ltac:(discriminate)).
  lia.
Qed.

Lemma read_unicode_escape (c : N) (rest : jsstring) :
  (c < 65536)%N ->
  read_string_tail (JSON.unicode_escape c ++ rest)
  = prepend (Some c) (read_string_tail rest).
Proof.
  intros H. unfold JSON.unicode_escape. cbn [app].
  cbn [read_string_tail N.eqb Pos.eqb].
  rewrite !hex_digit_value.
  - now rewrite four_hex_digits.
  - apply N.mod_lt. discriminate.
  - apply N.mod_lt. discriminate.
  - apply N.mod_lt. discriminate.
  - apply N.Div0.div_lt_upper_bound. exact H.
Qed.

Lemma in_range_true (lo hi c : N) :
  in_range lo hi c = true <-> (lo <= c <= hi)%N.
Proof.
  unfold in_range. now rewrite andb_true_iff, !N.leb_le.
Qed.

(** A code unit that [JSON.stringify] writes as it is reads as itself. *)
Lemma read_plain (c : N) (rest : jsstring) :
  (32 <= c)%N -> c <> 34%N -> c <> 92%N ->
  read_string_tail (c :: rest) = prepend (Some c) (read_string_tail rest).
Proof.
  intros H32 H34 H92. cbn [read_string_tail].
  apply N.eqb_neq in H34, H92. rewrite H34, H92.
  destruct (c <? 32)%N eqn:E; [apply N.ltb_lt in E; lia | reflexivity].
Qed.

Lemma read_escape_code_unit (c : N) (rest : jsstring) :
  (c < 55296)%N ->
  read_string_tail (JSON.escape_code_unit c ++ rest)
  = prepend (Some c) (read_string_tail rest).
Proof.
  intros H. unfold JSON.escape_code_unit.
  destruct (N.eqb_spec c 8) as [->|N8]; [reflexivity|].
  destruct (N.eqb_spec c 9) as [->|N9]; [reflexivity|].
  destruct (N.eqb_spec c 10) as [->|N10]; [reflexivity|].
  destruct (N.eqb_spec c 12) as [->|N12]; [reflexivity|].
  destruct (N.eqb_spec c 13) as [->|N13]; [reflexivity|].
  destruct (N.eqb_spec c 34) as [->|N34]; [reflexivity|].
  destruct (N.eqb_spec c 92) as [->|N92]; [reflexivity|].
  destruct (c <? 32)%N eqn:E32.
  - apply read_unicode_escape. lia.
  - apply N.ltb_ge in E32. now apply read_plain.
Qed.

Lemma read_quote_code_units (after : jsstring) :
  forall n s,
    length s <= n ->
    read_string_tail (JSON.quote_code_units s ++ 34%N :: after)
    = Some (s, after).
Proof.
  induction n as [|n IH]; intros s L.
  - destruct s; [reflexivity | cbn in L; lia].
  - destruct s as [|c s]; [reflexivity|].
    cbn [JSON.quote_code_units length] in *.
    destruct (URL.is_lead_surrogate c) eqn:Lead.
    + apply in_range_true in Lead.
      destruct s as [|d s].
      * rewrite read_unicode_escape by lia. reflexivity.
      * destruct (URL.is_trail_surrogate d) eqn:Trail.
        -- apply in_range_true in Trail. cbn [app length] in *.
           rewrite read_plain by lia. rewrite read_plain by lia.
           rewrite IH by lia. reflexivity.
        -- rewrite <- app_assoc, read_unicode_escape by lia.
           rewrite IH by lia. reflexivity.
    + destruct (URL.is_trail_surrogate c) eqn:Trail.
      * apply in_range_true in Trail.
        rewrite <- app_assoc, read_unicode_escape by lia.
        rewrite IH by lia. reflexivity.
      * rewrite <- app_assoc.
        destruct (c <? 55296)%N eqn:Low.
        -- apply N.ltb_lt in Low. rewrite read_escape_code_unit by exact Low.
           rewrite IH by lia. reflexivity.
        -- apply N.ltb_ge in Low.
           assert (High : (57343 < c)%N).
           { destruct (N.le_gt_cases c 57343) as [Le|Gt]; [|lia].
             destruct (N.le_gt_cases c 56319) as [Le'|Gt'].
             - assert (URL.is_lead_surrogate c = true)
                 by (apply in_range_true; lia). congruence.
             - assert (URL.is_trail_surrogate c = true)
                 by (apply in_range_true; lia). congruence. }
           unfold JSON.escape_code_unit.
           destruct (N.eqb_spec c 8) as [E|_]; [lia|].
           destruct (N.eqb_spec c 9) as [E|_]; [lia|].
           destruct (N.eqb_spec c 10) as [E|_]; [lia|].
           destruct (N.eqb_spec c 12) as [E|_]; [lia|].
           destruct (N.eqb_spec c 13) as [E|_]; [lia|].
           destruct (N.eqb_spec c 34) as [E|_]; [lia|].
           destruct (N.eqb_spec c 92) as [E|_]; [lia|].
           destruct (c <? 32)%N eqn:E32; [apply N.ltb_lt in E32; lia|].
           cbn [app]. rewrite read_plain by lia.
           rewrite IH by lia. reflexivity.
Qed.

Lemma read_QuoteJSONString (s after : jsstring) :
  read_string (JSON.QuoteJSONString s ++ after) = Some (s, after).
Proof.
  unfold JSON.QuoteJSONString, read_string. cbn [app].
  rewrite <- app_assoc. cbn [app].
  now apply read_quote_code_units with (length s).
Qed.

(** The body of the request is JSON text in which a reader finds the email
    and the URL of the form, whatever code units they hold. *)
Lemma read_payload_submitRequest (data : FormData) :
  read_payload (body (submitRequest data)) = Some data.
Proof.
  destruct data as [e u]. unfold submitRequest, JSON.stringify_strings.
  cbn [body map fst snd JSON.join email article_url].
  change (js "{") with [123%N]. cbn [app].
  unfold read_payload.
  rewrite <- !app_assoc. rewrite read_QuoteJSONString.
  change (js ":") with [58%N]. cbn [app].
  rewrite read_QuoteJSONString.
  change (js ",") with [44%N]. cbn [app].
  rewrite read_QuoteJSONString. cbn [app].
  rewrite read_QuoteJSONString.
  reflexivity.
Qed.

(** ** The component's contract *)

Section Contract.

Variable platform : URL.HostPlatform.

(** C10. [handleInputChange] never fails; it sets the named field to the
    given value, leaves the other field and both flags as they were, and
    shows no toast and sends no request. *)
Theorem handleInputChange_sets_one_field :
  forall (f : Field) (v : jsstring) (s : State),
  exists s',
    handleInputChange f v s = (Normal tt, s', [])
    /\ field_value f (formData s') = v
    /\ (forall g, g <> f ->
                  field_value g (formData s') = field_value g (formData s))
    /\ isLoading s' = isLoading s
    /\ isSuccess s' = isSuccess s.
Proof.
  intros f v s. eexists. split; [reflexivity|].
  destruct f; cbn; repeat split; intros [] H; cbn; congruence.
Qed.

(** C5. When the email fails [validateEmail] or the URL fails [validateUrl],
    [handleSubmit] shows one toast, about the email if the email is invalid
    and about the URL otherwise, and does nothing else: the state and the
    pending calls are as before and no request is sent. *)
Theorem handleSubmit_stops_at_invalid_field :
  forall w : World,
    validateEmail (email (formData (state w))) = false
    \/ validateUrl platform (article_url (formData (state w))) = false ->
    effects (call (handleSubmit platform) w)
    = effects w
      ++ [Toasted (if validateEmail (email (formData (state w)))
                   then invalidUrlToast else invalidEmailToast)]
    /\ requests (call (handleSubmit platform) w) = requests w
    /\ state (call (handleSubmit platform) w) = state w
    /\ pending (call (handleSubmit platform) w) = pending w.
Proof.
  intros w H. unfold call, requests.
  destruct (validateEmail (email (formData (state w)))) eqn:Ve.
  - destruct H as [H|H]; [discriminate|].
    rewrite handleSubmit_invalid_url by assumption. cbn [effects state pending].
    rewrite requests_app. cbn. now rewrite app_nil_r.
  - rewrite handleSubmit_invalid_email by assumption. cbn [effects state pending].
    rewrite requests_app. cbn. now rewrite app_nil_r.
Qed.

(** C8. An event adds at most one request, only [SubmitForm] adds one, and
    the request is a POST to [http://localhost:8000/submit] with the two
    JSON headers; its body is the JSON text of an object with the members
    [email] and [article_url], from which a reader gets back the email and
    the URL that the form holds when it is submitted. *)
Theorem only_submit_posts_the_form :
  forall (w w' : World) (e : Event),
    step platform w e = Some w' ->
    exists new,
      requests w' = requests w ++ new
      /\ length new <= 1
      /\ Forall (is_submit_post (formData (state w))) new
      /\ (new <> [] -> e = SubmitForm).
Proof.
  intros w w' e H.
  assert (quiet : forall s p es,
             flat_map (fun x => match x with
                                | Fetched r => [r]
                                | Toasted _ => []
                                end) es = [] ->
             exists new,
               requests {| state := s; pending := p;
                           effects := effects w ++ es |}
               = requests w ++ new
               /\ length new <= 1
               /\ Forall (is_submit_post (formData (state w))) new
               /\ (new <> [] -> e = SubmitForm)).
  { intros s p es Hes. exists []. unfold requests at 1. cbn [effects].
    rewrite requests_app, Hes. repeat split; auto; congruence. }
  destruct e as [f v| | |i o|i o]; cbn in H.
  - destruct (inputs_shown _); [|discriminate]. injection H as <-.
    now apply quiet.
  - destruct (submit_enabled _); [|discriminate]. injection H as <-.
    unfold call.
    destruct (validateEmail (email (formData (state w)))) eqn:Ve;
      [destruct (validateUrl platform (article_url (formData (state w)))) eqn:Vu|].
    + rewrite handleSubmit_valid by assumption.
      exists [submitRequest (formData (state w))].
      unfold requests at 1. cbn [effects]. rewrite requests_app.
      repeat split; auto. constructor; [|constructor].
      unfold is_submit_post. repeat split.
      apply read_payload_submitRequest.
    + rewrite handleSubmit_invalid_url by assumption. now apply quiet.
    + rewrite handleSubmit_invalid_email by assumption. now apply quiet.
  - destruct (reset_shown _); [|discriminate]. injection H as <-.
    now apply quiet.
  - destruct (nth_error (pending w) i) as [[|]|]; try discriminate.
    injection H as <-. unfold continue.
    destruct (failure_event (FetchSettles 0 o)) eqn:F.
    + rewrite resume_fetch_failure by assumption. now apply quiet.
    + destruct o as [|r]; [discriminate|]. cbn in F.
      apply negb_false_iff in F. rewrite resume_fetch_ok by assumption.
      now apply quiet.
  - destruct (nth_error (pending w) i) as [[|]|]; try discriminate.
    injection H as <-. unfold continue.
    destruct (accepted o) eqn:A.
    + rewrite resume_json_success by assumption. now apply quiet.
    + rewrite resume_json_failure by assumption. now apply quiet.
Qed.

(** C7. In every reachable world at most one call of [handleSubmit] is
    suspended on its request; the view is Submitting exactly when one is;
    and while one is, the submit button is disabled and a submission cannot
    happen. *)
Theorem one_request_at_a_time :
  forall w : World,
    reachable platform w ->
    length (pending w) <= 1
    /\ (viewStatus (state w) = Submitting <-> pending w <> [])
    /\ (pending w <> [] ->
        submit_enabled (render (state w)) = false
        /\ step platform w SubmitForm = None).
Proof.
  intros w R. apply reachable_consistent in R.
  split; [|split].
  - destruct R as [[-> _] | (p & -> & _)]; cbn; lia.
  - now apply consistent_views.
  - intros NE. destruct R as [[E _] | (p & _ & L & S)]; [congruence|].
    cbn. unfold render. rewrite S, L. cbn. auto.
Qed.

(** C9. The reset button is shown exactly in the Succeeded view, so
    [resetForm] can run from there only; from there it empties both fields
    and the view becomes Idle. *)
Theorem resetForm_from_the_success_panel :
  forall w : World,
    reachable platform w ->
    (reset_shown (render (state w)) = true <-> viewStatus (state w) = Succeeded)
    /\ (viewStatus (state w) <> Succeeded -> step platform w ClickReset = None)
    /\ (viewStatus (state w) = Succeeded ->
        exists w',
          step platform w ClickReset = Some w'
          /\ formData (state w') = {| email := []; article_url := [] |}
          /\ viewStatus (state w') = Idle).
Proof.
  intros w R. apply reachable_consistent in R.
  destruct w as [[data loading success] pend eff].
  unfold consistent in R. cbn in R. cbn. unfold viewStatus, render. cbn.
  destruct success; cbn.
  - destruct R as [[_ ->] | (p & _ & _ & S)]; [|discriminate].
    repeat split; try congruence.
    intros _. eexists. repeat split.
  - destruct loading; repeat split; try congruence; discriminate.
Qed.

(** C4. From the Idle view with an email and a URL that pass the
    validators, a response with status 200 and body [{"ok": true}] takes the
    view through Submitting to Succeeded; what is done on the way is one
    request and then one success toast. *)
Theorem successful_submission :
  forall w : World,
    reachable platform w ->
    viewStatus (state w) = Idle ->
    validateEmail (email (formData (state w))) = true ->
    validateUrl platform (article_url (formData (state w))) = true ->
    exists w1 w2 w3,
      step platform w SubmitForm = Some w1
      /\ step platform w1 (FetchSettles 0 status_200) = Some w2
      /\ step platform w2 (JsonSettles 0 (JsonFulfilled ok_true)) = Some w3
      /\ map (fun x => viewStatus (state x)) [w; w1; w2; w3]
         = [Idle; Submitting; Submitting; Succeeded]
      /\ effects w3
         = effects w ++ [ Fetched (submitRequest (formData (state w)));
                          Toasted successToast ].
Proof.
  intros w R I Ve Vu. apply reachable_consistent in R.
  destruct w as [[data loading success] pend eff].
  unfold viewStatus, render in I. unfold consistent in R. cbn in *.
  destruct success; [discriminate|]. destruct loading; [discriminate|].
  destruct R as [[-> _] | (p & _ & L & _)]; [|discriminate].
  pose (s1 := {| formData := data; isLoading := true; isSuccess := false |}).
  pose (w1 := {| state := s1; pending := [AwaitingFetch];
                 effects := eff ++ [Fetched (submitRequest data)] |}).
  pose (w2 := {| state := s1; pending := [AwaitingJson];
                 effects := effects w1 |}).
  assert (C1 : consistent w1) by (right; now exists AwaitingFetch).
  assert (C2 : consistent w2) by (right; now exists AwaitingJson).
  exists w1, w2. eexists. split; [|split; [|split; [|split]]].
  - unfold call. cbn [state]. now rewrite handleSubmit_valid.
  - exact (@step_fetch_ok platform w1 0 {| status := 200 |}
                          C1 eq_refl eq_refl).
  - exact (@step_json_success platform w2 0 (JsonFulfilled ok_true)
                              C2 eq_refl eq_refl).
  - reflexivity.
  - cbn. now rewrite <- app_assoc.
Qed.

(** C2, as the code has it.  Whatever the status, a response whose body has
    no truthy [ok] (absent, [false], [null], zero, the empty string, or a
    body that is [null] or no object at all) ends as a failure: the view does
    not become Succeeded and the only thing done is the error toast. *)
Theorem body_without_truthy_ok_fails :
  forall (w : World) (i : nat) (st : N) (result : JSON.Value),
    reachable platform w ->
    nth_error (pending w) i = Some AwaitingFetch ->
    JSON.ToBoolean (JSON.get result (js "ok")) = false ->
    exists w',
      run platform w (answer i (Responds st (Some result))) = Some w'
      /\ viewStatus (state w') <> Succeeded
      /\ effects w' = effects w ++ [Toasted errorToast].
Proof.
  intros w i st result R Ei F.
  apply reachable_consistent in R.
  destruct (@consistent_pending w i AwaitingFetch R Ei) as (-> & E & L & S).
  unfold answer. destruct (in_range 200 299 st) eqn:Eok; cbn [run].
  - rewrite step_fetch_ok by assumption.
    pose (w2 := {| state := state w; pending := [AwaitingJson];
                   effects := effects w |}).
    assert (C2 : consistent w2) by (right; now exists AwaitingJson).
    fold w2. destruct (step platform w2 (JsonSettles 0 (JsonFulfilled result)))
      as [w'|] eqn:H; [|discriminate].
    apply step_failure in H;
      [| assumption | unfold failure_event, accepted; now rewrite F].
    exists w'. subst w'. cbn. repeat split. discriminate.
  - destruct (step platform w (FetchSettles 0 (FetchFulfilled {| status := st |})))
      as [w'|] eqn:H.
    + apply step_failure in H; [| assumption
                                | cbn; unfold response_ok; cbn; now rewrite Eok].
      exists w'. subst w'. cbn. repeat split. discriminate.
    + exfalso. cbn [step] in H. rewrite Ei in H. discriminate.
Qed.

(** C3, as the code has it.  Every settlement that the code treats as a
    failure (the request fails, the status is not 2xx, the body does not
    parse, or its [ok] is not truthy) shows exactly the error toast, clears
    [isLoading], and leaves the Idle view with no call suspended. *)
Theorem failed_attempt_returns_to_idle :
  forall (w w' : World) (e : Event),
    reachable platform w ->
    failure_event e = true ->
    step platform w e = Some w' ->
    effects w' = effects w ++ [Toasted errorToast]
    /\ isLoading (state w') = false
    /\ viewStatus (state w') = Idle
    /\ pending w' = [].
Proof.
  intros w w' e R F H. apply reachable_consistent in R.
  apply step_failure in H; try assumption. subst w'. cbn. auto.
Qed.

End Contract.

(** ** Concrete runs *)

Lemma world_after_from_reachable (events : list Event) :
  forall w, reachable plain_platform w ->
            reachable plain_platform (world_after_from w events).
Proof.
  induction events as [|e events IH]; intros w R; cbn; [exact R|].
  destruct (step plain_platform w e) as [w'|] eqn:E; [|exact R].
  apply IH. now apply reachable_step with w e.
Qed.

Lemma world_after_reachable (events : list Event) :
  reachable plain_platform (world_after events).
Proof. apply world_after_from_reachable. constructor. Qed.

(** C5 with nothing typed: the empty email is refused and nothing is sent. *)
Lemma handleSubmit_stops_at_invalid_field_witness :
  effects (call (handleSubmit plain_platform) initialWorld)
  = [Toasted invalidEmailToast]
  /\ requests (call (handleSubmit plain_platform) initialWorld) = []
  /\ state (call (handleSubmit plain_platform) initialWorld) = initialState
  /\ pending (call (handleSubmit plain_platform) initialWorld) = [].
Proof.
  apply (@handleSubmit_stops_at_invalid_field plain_platform initialWorld).
  left. reflexivity.
Defined.

(** C8 at the submission of the filled form. *)
Lemma only_submit_posts_the_form_witness :
  exists new,
    requests (world_after in_flight) = requests (world_after typing) ++ new
    /\ length new <= 1
    /\ Forall (is_submit_post typed) new
    /\ (new <> [] -> SubmitForm = SubmitForm).
Proof.
  apply (@only_submit_posts_the_form plain_platform
           (world_after typing) (world_after in_flight) SubmitForm).
  reflexivity.
Defined.

(** C7 while the request is on its way. *)
Lemma one_request_at_a_time_witness :
  length (pending (world_after in_flight)) <= 1
  /\ (viewStatus (state (world_after in_flight)) = Submitting
      <-> pending (world_after in_flight) <> [])
  /\ (pending (world_after in_flight) <> [] ->
      submit_enabled (render (state (world_after in_flight))) = false
      /\ step plain_platform (world_after in_flight) SubmitForm = None).
Proof.
  apply (@one_request_at_a_time plain_platform (world_after in_flight)).
  apply world_after_reachable.
Defined.

(** C9 after a submission that succeeded. *)
Lemma resetForm_from_the_success_panel_witness :
  exists w',
    step plain_platform
         (world_after (in_flight ++ answer 0 (Responds 200 (Some ok_true))))
         ClickReset = Some w'
    /\ formData (state w') = {| email := []; article_url := [] |}
    /\ viewStatus (state w') = Idle.
Proof.
  apply (@resetForm_from_the_success_panel plain_platform
           (world_after (in_flight ++ answer 0 (Responds 200 (Some ok_true))))).
  - apply world_after_reachable.
  - reflexivity.
Defined.

(** C4 from the filled form. *)
Lemma successful_submission_witness :
  exists w1 w2 w3,
    step plain_platform (world_after typing) SubmitForm = Some w1
    /\ step plain_platform w1 (FetchSettles 0 status_200) = Some w2
    /\ step plain_platform w2 (JsonSettles 0 (JsonFulfilled ok_true)) = Some w3
    /\ map (fun x => viewStatus (state x)) [world_after typing; w1; w2; w3]
       = [Idle; Submitting; Submitting; Succeeded]
    /\ effects w3
       = effects (world_after typing)
         ++ [Fetched (submitRequest (formData (state (world_after typing))));
             Toasted successToast].
Proof.
  apply (@successful_submission plain_platform (world_after typing)).
  - apply world_after_reachable.
  - reflexivity.
  - reflexivity.
  - reflexivity.
Defined.

(** C2 at status 200 with body [{"ok": false}]. *)
Lemma body_without_truthy_ok_fails_witness :
  exists w',
    run plain_platform (world_after in_flight)
        (answer 0 (Responds 200 (Some ok_false))) = Some w'
    /\ viewStatus (state w') <> Succeeded
    /\ effects w' = effects (world_after in_flight) ++ [Toasted errorToast].
Proof.
  apply (@body_without_truthy_ok_fails plain_platform
           (world_after in_flight) 0 200 ok_false).
  - apply world_after_reachable.
  - reflexivity.
  - reflexivity.
Defined.

(** C2 as stated fails: the body [{"ok": 1}] has an [ok] that is not the
    boolean [true], and the submission succeeds: the view becomes Succeeded
    and the only toast is the success toast. *)
Lemma ok_one_is_accepted :
  JSON.get ok_one (js "ok") <> JSON.Read (JSON.JBool true)
  /\ exists w',
       run plain_platform (world_after in_flight)
           (answer 0 (Responds 200 (Some ok_one))) = Some w'
       /\ viewStatus (state w') = Succeeded
       /\ toasts w' = [successToast].
Proof.
  split; [discriminate|]. eexists. repeat split.
Qed.

(** C3 at a request that never gets an answer. *)
Lemma failed_attempt_returns_to_idle_witness :
  exists w',
    step plain_platform (world_after in_flight) (FetchSettles 0 FetchRejected)
    = Some w'
    /\ effects w' = effects (world_after in_flight) ++ [Toasted errorToast]
    /\ isLoading (state w') = false
    /\ viewStatus (state w') = Idle
    /\ pending w' = [].
Proof.
  eexists. split; [reflexivity|].
  apply (@failed_attempt_returns_to_idle plain_platform
           (world_after in_flight) _ (FetchSettles 0 FetchRejected)).
  - apply world_after_reachable.
  - reflexivity.
  - reflexivity.
Defined.

(** C3 as stated fails: a response with status 200 and body [{"ok": "yes"}]
    is a response body without [ok: true], and no failure toast is shown;
    the view ends Succeeded, not Idle. *)
Lemma ok_yes_is_no_failure :
  JSON.get ok_yes (js "ok") <> JSON.Read (JSON.JBool true)
  /\ exists w',
       run plain_platform (world_after in_flight)
           (answer 0 (Responds 200 (Some ok_yes))) = Some w'
       /\ ~ In errorToast (toasts w')
       /\ viewStatus (state w') = Succeeded.
Proof.
  split; [discriminate|]. eexists. split; [reflexivity|]. split; [|reflexivity].
  cbn. intros [H|[]]. discriminate.
Qed.

(* ================================================================== *)
(** * Further properties of the code *)
(* ================================================================== *)

(** ** [validateEmail] *)

Lemma not_space_not_at_plain (c : N) :
  RegExp.atom_matches not_space_not_at c = plain_code_unit c.
Proof.
  unfold plain_code_unit. cbn.
  destruct (RegExp.is_white_space c), (N.eqb c at_sign); reflexivity.
Qed.

Lemma local_part_ok_plain (s : jsstring) :
  local_part_ok s = forallb plain_code_unit s.
Proof.
  unfold local_part_ok. induction s as [|c s IH]; [reflexivity|].
  cbn [forallb]. now rewrite IH, not_space_not_at_plain.
Qed.

(** X1. [validateEmail] accepts exactly the strings of the form [l@d.t] in which
    [l], [d] and [t] are not empty and hold neither white space nor [@]. *)
Theorem validateEmail_accepts_exactly_l_at_d_dot_t :
  forall s : jsstring,
    validateEmail s = true <->
    exists l d t,
      s = l ++ at_sign :: d ++ full_stop :: t
      /\ l <> [] /\ d <> [] /\ t <> []
      /\ forallb plain_code_unit (l ++ d ++ t) = true.
Proof.
  intros s. rewrite validateEmail_true_iff. split.
  - intros (l & d & t & E & Hl & Hd & Ht & Fl & Fd & Ft).
    exists l, d, t. rewrite !forallb_app, <- !local_part_ok_plain, Fl, Fd, Ft.
    auto.
  - intros (l & d & t & E & Hl & Hd & Ht & F).
    rewrite !forallb_app, !andb_true_iff, <- !local_part_ok_plain in F.
    exists l, d, t. tauto.
Qed.

Lemma plain_count_at (s : jsstring) :
  forallb plain_code_unit s = true -> count_occ N.eq_dec s at_sign = 0.
Proof.
  intros F. apply count_occ_not_In. intros Hin.
  rewrite forallb_forall in F. specialize (F _ Hin).
  unfold plain_code_unit in F. rewrite N.eqb_refl, andb_false_r in F.
  discriminate.
Qed.

Lemma plain_no_white_space (s : jsstring) :
  forallb plain_code_unit s = true ->
  existsb RegExp.is_white_space s = false.
Proof.
  induction s as [|c s IH]; [reflexivity|]. cbn [forallb existsb].
  unfold plain_code_unit at 1. rewrite !andb_true_iff, negb_true_iff.
  intros [[W _] F]. now rewrite W, IH.
Qed.

(** X2. An accepted email holds exactly one [@] and no white space at all, so it
    is never padded with blanks, and it is at least five code units long. *)
Theorem validateEmail_one_at_no_white_space :
  forall s : jsstring,
    validateEmail s = true ->
    count_occ N.eq_dec s at_sign = 1
    /\ existsb RegExp.is_white_space s = false
    /\ 5 <= length s.
Proof.
  intros s H.
  apply validateEmail_true_iff in H
    as (l & d & t & -> & Hl & Hd & Ht & Fl & Fd & Ft).
  rewrite local_part_ok_plain in Fl, Fd, Ft.
  split; [|split].
  - rewrite count_occ_app. cbn [count_occ].
    destruct (N.eq_dec at_sign at_sign) as [_|NE]; [|congruence].
    rewrite count_occ_app. cbn [count_occ].
    destruct (N.eq_dec full_stop at_sign) as [E|_]; [discriminate|].
    rewrite !plain_count_at by assumption. reflexivity.
  - rewrite existsb_app. cbn [existsb]. rewrite existsb_app. cbn [existsb].
    rewrite !plain_no_white_space by assumption. reflexivity.
  - rewrite length_app. cbn [length]. rewrite length_app. cbn [length].
    destruct l; [congruence|]. destruct d; [congruence|].
    destruct t; [congruence|]. cbn [length]. lia.
Qed.

Lemma validateEmail_one_at_no_white_space_witness :
  count_occ N.eq_dec (js "user@example.com") at_sign = 1
  /\ existsb RegExp.is_white_space (js "user@example.com") = false
  /\ 5 <= length (js "user@example.com").
Proof.
  apply (@validateEmail_one_at_no_white_space (js "user@example.com")).
  reflexivity.
Defined.

(** ** The request body, [JSON.stringify] at lines 71-74 *)

(** X3. A string as [JSON.stringify] writes it reads back as itself, whatever
    code units it holds, and the text after it is left alone.  So no written
    string is the beginning of another one: equal texts that start with
    written strings have the same string and the same remainder. *)
Theorem QuoteJSONString_reads_back :
  (forall s after : jsstring,
      read_string (JSON.QuoteJSONString s ++ after) = Some (s, after))
  /\ (forall s1 s2 after1 after2 : jsstring,
        JSON.QuoteJSONString s1 ++ after1 = JSON.QuoteJSONString s2 ++ after2 ->
        s1 = s2 /\ after1 = after2).
Proof.
  split; [exact read_QuoteJSONString|].
  intros s1 s2 after1 after2 E.
  pose proof (read_QuoteJSONString s1 after1) as R.
  rewrite E, read_QuoteJSONString in R.
  injection R as -> ->. auto.
Qed.

Lemma QuoteJSONString_reads_back_witness :
  js "a" = js "a" /\ js ":1" = js ":1".
Proof.
  apply (proj2 QuoteJSONString_reads_back (js "a") (js "a") (js ":1") (js ":1")).
  reflexivity.
Defined.

(** X4. Different form data never give the same request body. *)
Theorem request_body_determines_form_data :
  forall d1 d2 : FormData,
    body (submitRequest d1) = body (submitRequest d2) -> d1 = d2.
Proof.
  intros d1 d2 E.
  pose proof (read_payload_submitRequest d1) as R1.
  rewrite E, read_payload_submitRequest in R1. now injection R1.
Qed.

Lemma request_body_determines_form_data_witness : typed = typed.
Proof.
  apply (@request_body_determines_form_data typed typed). reflexivity.
Defined.

Lemma hex_digit_printable (n : N) : (32 <= JSON.hex_digit n)%N.
Proof. unfold JSON.hex_digit. destruct (n <? 10)%N; lia. Qed.

Lemma unicode_escape_printable (c : N) :
  Forall (fun x => (32 <= x)%N) (JSON.unicode_escape c).
Proof.
  unfold JSON.unicode_escape.
  repeat constructor; try apply hex_digit_printable; lia.
Qed.

Lemma escape_code_unit_printable (c : N) :
  Forall (fun x => (32 <= x)%N) (JSON.escape_code_unit c).
Proof.
  unfold JSON.escape_code_unit.
  destruct (N.eqb c 8); [repeat constructor; lia|].
  destruct (N.eqb c 9); [repeat constructor; lia|].
  destruct (N.eqb c 10); [repeat constructor; lia|].
  destruct (N.eqb c 12); [repeat constructor; lia|].
  destruct (N.eqb c 13); [repeat constructor; lia|].
  destruct (N.eqb c 34); [repeat constructor; lia|].
  destruct (N.eqb c 92); [repeat constructor; lia|].
  destruct (c <? 32)%N eqn:E; [apply unicode_escape_printable|].
  apply N.ltb_ge in E. repeat constructor. exact E.
Qed.

Lemma quote_code_units_printable :
  forall n s, length s <= n ->
              Forall (fun x => (32 <= x)%N) (JSON.quote_code_units s).
Proof.
  induction n as [|n IH]; intros s L.
  - destruct s; [constructor | cbn in L; lia].
  - destruct s as [|c s]; [constructor|].
    cbn [JSON.quote_code_units length] in *.
    destruct (URL.is_lead_surrogate c) eqn:Lead.
    + apply in_range_true in Lead. destruct s as [|d s].
      * apply unicode_escape_printable.
      * destruct (URL.is_trail_surrogate d) eqn:Trail.
        -- apply in_range_true in Trail. cbn [length] in L.
           constructor; [lia|]. constructor; [lia|]. apply IH. lia.
        -- apply Forall_app. split; [apply unicode_escape_printable|].
           apply IH. lia.
    + destruct (URL.is_trail_surrogate c).
      * apply Forall_app. split; [apply unicode_escape_printable|].
        apply IH. lia.
      * apply Forall_app. split; [apply escape_code_unit_printable|].
        apply IH. lia.
Qed.

Lemma QuoteJSONString_printable (s : jsstring) :
  Forall (fun x => (32 <= x)%N) (JSON.QuoteJSONString s).
Proof.
  unfold JSON.QuoteJSONString. constructor; [lia|].
  apply Forall_app. split.
  - now apply quote_code_units_printable with (length s).
  - repeat constructor. lia.
Qed.

(** X5. Whatever the user typed, control characters included, the request body
    holds no code unit below U+0020: they are all written as escapes. *)
Theorem request_body_has_no_control_characters :
  forall d : FormData,
    Forall (fun c => (32 <= c)%N) (body (submitRequest d)).
Proof.
  intros d. unfold submitRequest, JSON.stringify_strings.
  cbn [body map fst snd JSON.join].
  repeat (apply Forall_app; split);
    try apply QuoteJSONString_printable;
    vm_compute; repeat constructor; discriminate.
Qed.

(** ** The event loop, further *)

Section EventLoopFurther.

Variable platform : URL.HostPlatform.

(** What one event can do to the pending calls and to the log: nothing but
    perhaps a validation toast; a request sent on validated data; a call
    moved to its second [await]; a call ended with the error toast; a call
    ended with the success toast. *)
Lemma step_cases (w w' : World) (e : Event) :
  consistent w -> step platform w e = Some w' ->
  (pending w' = pending w
   /\ exists es, effects w' = effects w ++ es
                 /\ (es = [] \/ es = [Toasted invalidEmailToast]
                     \/ es = [Toasted invalidUrlToast]))
  \/ (e = SubmitForm
      /\ validated platform (formData (state w)) = true
      /\ pending w = [] /\ pending w' = [AwaitingFetch]
      /\ effects w'
         = effects w ++ [Fetched (submitRequest (formData (state w)))])
  \/ (pending w = [AwaitingFetch] /\ pending w' = [AwaitingJson]
      /\ effects w' = effects w ++ [])
  \/ ((exists p, pending w = [p]) /\ pending w' = []
      /\ effects w' = effects w ++ [Toasted errorToast])
  \/ (pending w = [AwaitingJson] /\ pending w' = []
      /\ effects w' = effects w ++ [Toasted successToast]).
Proof.
  intros C H. destruct e as [f v| | |i o|i o]; cbn [step] in H.
  - destruct (inputs_shown _); [|discriminate]. injection H as <-.
    left. split; [reflexivity|]. exists []. auto.
  - destruct (submit_enabled (render (state w))) eqn:En; [|discriminate].
    injection H as <-. unfold call, validated.
    destruct (validateEmail (email (formData (state w)))) eqn:Ve;
      [destruct (validateUrl platform (article_url (formData (state w))))
         eqn:Vu|].
    + rewrite handleSubmit_valid by assumption. cbn [pending effects].
      right. left.
      assert (P : pending w = []).
      { destruct C as [[P _] | (p & _ & L & S)]; [exact P|].
        unfold render in En. rewrite S, L in En. discriminate. }
      rewrite P. auto.
    + rewrite handleSubmit_invalid_url by assumption. cbn [pending effects].
      left. split; [reflexivity|]. eexists. split; [reflexivity|]. auto.
    + rewrite handleSubmit_invalid_email by assumption. cbn [pending effects].
      left. split; [reflexivity|]. eexists. split; [reflexivity|]. auto.
  - destruct (reset_shown _); [|discriminate]. injection H as <-.
    left. split; [reflexivity|]. exists []. auto.
  - destruct (nth_error (pending w) i) as [[|]|] eqn:Ei; try discriminate.
    injection H as <-.
    apply consistent_pending with (1 := C) in Ei as (-> & E & _ & _).
    unfold continue. rewrite E.
    destruct (failure_event (FetchSettles 0 o)) eqn:F.
    + rewrite resume_fetch_failure by assumption. cbn.
      right. right. right. left. split; [now exists AwaitingFetch|]. auto.
    + destruct o as [|r]; [discriminate|]. cbn in F.
      apply negb_false_iff in F. rewrite resume_fetch_ok by assumption. cbn.
      right. right. left. auto.
  - destruct (nth_error (pending w) i) as [[|]|] eqn:Ei; try discriminate.
    injection H as <-.
    apply consistent_pending with (1 := C) in Ei as (-> & E & _ & _).
    unfold continue. rewrite E.
    destruct (accepted o) eqn:A.
    + rewrite resume_json_success by assumption. cbn.
      right. right. right. right. auto.
    + rewrite resume_json_failure by assumption. cbn.
      right. right. right. left. split; [now exists AwaitingJson|]. auto.
Qed.

Lemma requests_grow (w w' : World) (es : list Effect) :
  effects w' = effects w ++ es ->
  requests w'
  = requests w
    ++ flat_map (fun e => match e with Fetched r => [r] | Toasted _ => [] end) es.
Proof. unfold requests. intros ->. apply flat_map_app. Qed.

Lemma count_toast_grow (t : Toast) (w w' : World) (es : list Effect) :
  effects w' = effects w ++ es ->
  count_toast t w'
  = count_toast t w
    + length (filter (toast_eqb t)
                (flat_map (fun e => match e with
                                    | Toasted x => [x]
                                    | Fetched _ => []
                                    end) es)).
Proof.
  unfold count_toast, toasts. intros ->.
  now rewrite flat_map_app, filter_app, length_app.
Qed.

(** X6. Every request ever sent carries an email and a URL that passed both
    validators when it was sent. *)
Theorem every_request_carries_validated_data :
  forall w : World,
    reachable platform w ->
    Forall (fun r => exists d, r = submitRequest d
                               /\ validated platform d = true)
           (requests w).
Proof.
  induction 1 as [|w w' e R IH H]; [constructor|].
  apply reachable_consistent in R.
  destruct (@step_cases w w' e R H)
    as [(_ & es & E & D) | [(_ & V & _ & _ & E) | [(_ & _ & E)
        | [(_ & _ & E) | (_ & _ & E)]]]];
    rewrite (@requests_grow w w' _ E).
  - destruct D as [-> | [-> | ->]]; cbn; now rewrite app_nil_r.
  - cbn. apply Forall_app. split; [exact IH|].
    constructor; [|constructor]. now exists (formData (state w)).
  - cbn. now rewrite app_nil_r.
  - cbn. now rewrite app_nil_r.
  - cbn. now rewrite app_nil_r.
Qed.

(** X7. Every request sent has ended in exactly one success toast or one error
    toast, or its call is still suspended: the requests are as many as the
    success toasts, the error toasts and the pending calls together. *)
Theorem requests_are_answered_or_pending :
  forall w : World,
    reachable platform w ->
    length (requests w)
    = count_toast successToast w + count_toast errorToast w
      + length (pending w).
Proof.
  induction 1 as [|w w' e R IH H]; [reflexivity|].
  apply reachable_consistent in R.
  destruct (@step_cases w w' e R H)
    as [(P & es & E & D) | [(_ & _ & P & P' & E) | [(P & P' & E)
        | [((p & P) & P' & E) | (P & P' & E)]]]];
    rewrite (@requests_grow w w' _ E),
            (@count_toast_grow successToast w w' _ E),
            (@count_toast_grow errorToast w w' _ E), length_app.
  - rewrite P. destruct D as [-> | [-> | ->]]; cbn; lia.
  - rewrite P in IH. rewrite P'. cbn in *. lia.
  - rewrite P in IH. rewrite P'. cbn in *. lia.
  - rewrite P in IH. rewrite P'. cbn in *. lia.
  - rewrite P in IH. rewrite P'. cbn in *. lia.
Qed.

End EventLoopFurther.

Lemma every_request_carries_validated_data_witness :
  Forall (fun r => exists d, r = submitRequest d
                             /\ validated plain_platform d = true)
         (requests (world_after in_flight)).
Proof.
  apply (@every_request_carries_validated_data plain_platform
           (world_after in_flight)).
  apply world_after_reachable.
Defined.

Lemma requests_are_answered_or_pending_witness :
  length (requests (world_after (in_flight ++ answer 0 (Responds 500 None)
                                 ++ SubmitForm :: answer 0 NetworkError
                                 ++ [SubmitForm])))
  = count_toast successToast
      (world_after (in_flight ++ answer 0 (Responds 500 None)
                    ++ SubmitForm :: answer 0 NetworkError ++ [SubmitForm]))
    + count_toast errorToast
        (world_after (in_flight ++ answer 0 (Responds 500 None)
                      ++ SubmitForm :: answer 0 NetworkError ++ [SubmitForm]))
    + length (pending
        (world_after (in_flight ++ answer 0 (Responds 500 None)
                      ++ SubmitForm :: answer 0 NetworkError ++ [SubmitForm]))).
Proof.
  apply (@requests_are_answered_or_pending plain_platform
           (world_after (in_flight ++ answer 0 (Responds 500 None)
                         ++ SubmitForm :: answer 0 NetworkError
                         ++ [SubmitForm]))).
  apply world_after_reachable.
Defined.

Section HandlersFurther.

Variable platform : URL.HostPlatform.

(** X8. The fields change only when the user types or resets: a submission, be
    it refused or sent, and every way a request can end leave the email and
    the URL as they are. *)
Theorem only_typing_and_reset_change_the_fields :
  forall (w w' : World) (e : Event),
    step platform w e = Some w' ->
    formData (state w') = formData (state w)
    \/ (exists f v, e = Change f v)
    \/ e = ClickReset.
Proof.
  intros w w' e H. destruct e as [f v| | |i o|i o]; cbn [step] in H.
  - right. left. now exists f, v.
  - left. destruct (submit_enabled _); [|discriminate]. injection H as <-.
    unfold call.
    destruct (validateEmail (email (formData (state w)))) eqn:Ve;
      [destruct (validateUrl platform (article_url (formData (state w))))
         eqn:Vu|].
    + now rewrite handleSubmit_valid.
    + now rewrite handleSubmit_invalid_url.
    + now rewrite handleSubmit_invalid_email.
  - right. right. reflexivity.
  - left. destruct (nth_error (pending w) i) as [[|]|]; try discriminate.
    injection H as <-. unfold continue.
    destruct (failure_event (FetchSettles 0 o)) eqn:F.
    + now rewrite resume_fetch_failure.
    + destruct o as [|r]; [discriminate|]. cbn in F.
      apply negb_false_iff in F. now rewrite resume_fetch_ok.
  - left. destruct (nth_error (pending w) i) as [[|]|]; try discriminate.
    injection H as <-. unfold continue.
    destruct (accepted o) eqn:A.
    + now rewrite resume_json_success.
    + now rewrite resume_json_failure.
Qed.

(** X9. [handleSubmit] checks the two fields and nothing else: with fields that
    pass, it sets [isLoading], sends the request and suspends, whatever the
    flags are and whether or not another call is already suspended. *)
Theorem handleSubmit_has_no_guard_of_its_own :
  forall w : World,
    validated platform (formData (state w)) = true ->
    call (handleSubmit platform) w
    = {| state := {| formData := formData (state w);
                     isLoading := true;
                     isSuccess := isSuccess (state w) |};
         pending := pending w ++ [AwaitingFetch];
         effects := effects w
                    ++ [Fetched (submitRequest (formData (state w)))] |}.
Proof.
  intros w V. unfold validated in V. apply andb_true_iff in V as [Ve Vu].
  unfold call. now rewrite handleSubmit_valid.
Qed.


(** X11. In the success panel nothing can happen but the reset: the inputs and
    the submit button are not there, and no call is suspended. *)
Theorem success_panel_allows_only_reset :
  forall (w w' : World) (e : Event),
    reachable platform w ->
    viewStatus (state w) = Succeeded ->
    step platform w e = Some w' ->
    e = ClickReset.
Proof.
  intros w w' e R S H. apply reachable_consistent in R.
  assert (Su : isSuccess (state w) = true).
  { unfold viewStatus, render in S.
    destruct (isSuccess (state w)); [reflexivity|].
    destruct (isLoading (state w)); discriminate. }
  assert (P : pending w = []).
  { destruct R as [[P _] | (p & _ & _ & S')]; [exact P | congruence]. }
  destruct e as [f v| | |i o|i o]; cbn [step] in H.
  - unfold render in H. rewrite Su in H. discriminate.
  - unfold render in H. rewrite Su in H. discriminate.
  - reflexivity.
  - rewrite P in H. destruct i; discriminate.
  - rewrite P in H. destruct i; discriminate.
Qed.

End HandlersFurther.

Lemma only_typing_and_reset_change_the_fields_witness :
  formData (state (world_after (in_flight ++ answer 0 NetworkError)))
  = formData (state (world_after in_flight))
  \/ (exists f v, FetchSettles 0 FetchRejected = Change f v)
  \/ FetchSettles 0 FetchRejected = ClickReset.
Proof.
  apply (@only_typing_and_reset_change_the_fields plain_platform
           (world_after in_flight)
           (world_after (in_flight ++ answer 0 NetworkError))
           (FetchSettles 0 FetchRejected)).
  reflexivity.
Defined.

Lemma handleSubmit_has_no_guard_of_its_own_witness :
  length (pending (call (handleSubmit plain_platform) (world_after in_flight)))
  = 2.
Proof.
  rewrite (@handleSubmit_has_no_guard_of_its_own plain_platform
             (world_after in_flight) eq_refl).
  reflexivity.
Defined.


Lemma success_panel_allows_only_reset_witness :
  ClickReset = ClickReset.
Proof.
  apply (@success_panel_allows_only_reset plain_platform
           (world_after (in_flight ++ answer 0 (Responds 200 (Some ok_true))))
           (world_after (in_flight ++ answer 0 (Responds 200 (Some ok_true))
                         ++ [ClickReset]))
           ClickReset).
  - apply world_after_reachable.
  - reflexivity.
  - reflexivity.
Defined.

(** ** [validateUrl], further *)

Lemma scheme_state_complete :
  forall name buffer rest,
    forallb URL.is_scheme_code_point name = true ->
    URL.scheme_state buffer (name ++ URL.colon :: rest)
    = URL.SchemeFound (buffer ++ map ascii_lower name) rest.
Proof.
  induction name as [|c name IH]; intros buffer rest F; cbn [app map].
  - cbn. now rewrite app_nil_r.
  - cbn [forallb] in F. apply andb_true_iff in F as [Fc F].
    cbn [URL.scheme_state]. rewrite Fc, IH by exact F.
    now rewrite <- app_assoc.
Qed.

Lemma scheme_start_state_complete (first : N) (name rest : list N) :
  is_ascii_alpha first = true ->
  forallb URL.is_scheme_code_point name = true ->
  URL.scheme_start_state (first :: name ++ URL.colon :: rest)
  = URL.SchemeFound (map ascii_lower (first :: name)) rest.
Proof.
  intros A F. cbn [URL.scheme_start_state]. rewrite A.
  now rewrite scheme_state_complete.
Qed.

Lemma not_special_not_file (sch : list N) :
  URL.is_special sch = false -> JS.eqb sch (js "file") = false.
Proof.
  unfold URL.is_special. cbn [existsb].
  destruct (JS.eqb sch (js "file")); [|reflexivity].
  now rewrite orb_true_r.
Qed.

(** The slash test of the scheme state and of the path or authority state,
    with the comparison written out. *)
Lemma slash_or_not (A : Type) (c : N) (rest : list N) (f : list N -> A) (a : A) :
  match c :: rest with
  | 47%N :: rest' => f rest'
  | _ => a
  end
  = if N.eqb c URL.slash then f rest else a.
Proof.
  destruct c as [|p]; [reflexivity|].
  do 6 (destruct p as [p|p|]; try reflexivity).
Qed.

Section UrlFurther.

Variable platform : URL.HostPlatform.

Lemma after_scheme_not_special (sch rest : list N) :
  URL.is_special sch = false ->
  (forall r, rest <> URL.slash :: URL.slash :: r) ->
  URL.after_scheme platform sch rest
  = Some {| URL.scheme := sch; URL.host := None; URL.port := None |}.
Proof.
  intros S NS. unfold URL.after_scheme.
  rewrite (@not_special_not_file sch S), S.
  destruct rest as [|c rest]; [reflexivity|].
  rewrite slash_or_not.
  destruct (N.eqb_spec c URL.slash) as [->|_]; [|reflexivity].
  unfold URL.path_or_authority_state.
  destruct rest as [|c rest]; [reflexivity|].
  rewrite slash_or_not.
  destruct (N.eqb_spec c URL.slash) as [->|_]; [|reflexivity].
  exfalso. now apply (NS rest).
Qed.

(** X12. A string with a scheme other than [ftp], [file], [http], [https], [ws]
    and [wss] is accepted whatever follows the colon, unless that starts
    with two slashes; the URL it parses to has no host.  So addresses such
    as [mailto:], [javascript:] or [data:] URLs pass the validation. *)
Theorem validateUrl_accepts_every_non_special_scheme :
  forall (v : jsstring) (first : N) (name rest : list N),
    URL.clean_input (URL.to_scalar_values v)
    = first :: name ++ URL.colon :: rest ->
    is_ascii_alpha first = true ->
    forallb URL.is_scheme_code_point name = true ->
    URL.is_special (map ascii_lower (first :: name)) = false ->
    (forall r, rest <> URL.slash :: URL.slash :: r) ->
    validateUrl platform v = true
    /\ URL.new_URL platform v
       = Some {| URL.scheme := map ascii_lower (first :: name);
                 URL.host := None; URL.port := None |}.
Proof.
  intros v first name rest E A F S NS.
  assert (P : URL.new_URL platform v
              = Some {| URL.scheme := map ascii_lower (first :: name);
                        URL.host := None; URL.port := None |}).
  { unfold URL.new_URL, URL.basic_URL_parser.
    rewrite E, scheme_start_state_complete by assumption.
    now apply after_scheme_not_special. }
  split; [|exact P]. unfold validateUrl. now rewrite P.
Qed.

End UrlFurther.

Lemma validateUrl_accepts_every_non_special_scheme_witness :
  validateUrl plain_platform (js "javascript:alert(1)") = true
  /\ URL.new_URL plain_platform (js "javascript:alert(1)")
     = Some {| URL.scheme := js "javascript";
               URL.host := None; URL.port := None |}.
Proof.
  apply (@validateUrl_accepts_every_non_special_scheme plain_platform
           (js "javascript:alert(1)") 106%N (js "avascript") (js "alert(1)")).
  - reflexivity.
  - reflexivity.
  - reflexivity.
  - reflexivity.
  - intros r H. discriminate.
Defined.

Lemma padding_not_surrogate (c : N) :
  URL.is_C0_control_or_space c = true ->
  URL.is_lead_surrogate c = false /\ URL.is_trail_surrogate c = false.
Proof.
  unfold URL.is_C0_control_or_space. intros H. apply N.leb_le in H.
  split.
  - destruct (URL.is_lead_surrogate c) eqn:E; [|reflexivity].
    apply in_range_true in E. lia.
  - destruct (URL.is_trail_surrogate c) eqn:E; [|reflexivity].
    apply in_range_true in E. lia.
Qed.

Lemma to_scalar_values_padding_left (pre s : jsstring) :
  padding pre = true ->
  URL.to_scalar_values (pre ++ s) = pre ++ URL.to_scalar_values s.
Proof.
  induction pre as [|c pre IH]; intros P; [reflexivity|].
  cbn [padding forallb] in P. apply andb_true_iff in P as [Pc P].
  destruct (padding_not_surrogate c Pc) as [L T].
  cbn [app URL.to_scalar_values]. rewrite L, T. now rewrite IH.
Qed.

Lemma to_scalar_values_padding_right (post : jsstring) :
  padding post = true ->
  forall n s, length s <= n ->
              URL.to_scalar_values (s ++ post)
              = URL.to_scalar_values s ++ post.
Proof.
  intros P. induction n as [|n IH]; intros s L.
  - destruct s; [|cbn in L; lia]. cbn [app URL.to_scalar_values].
    rewrite <- (app_nil_r post) at 1.
    now rewrite to_scalar_values_padding_left, app_nil_r.
  - destruct s as [|c s].
    + cbn [app URL.to_scalar_values].
      rewrite <- (app_nil_r post) at 1.
      now rewrite to_scalar_values_padding_left, app_nil_r.
    + cbn [length] in L. cbn [app URL.to_scalar_values].
      destruct (URL.is_lead_surrogate c).
      * destruct s as [|d s].
        -- cbn [app]. destruct post as [|q post]; [reflexivity|].
           cbn [padding forallb] in P. apply andb_true_iff in P as [Pq P].
           destruct (padding_not_surrogate q Pq) as [_ T]. rewrite T.
           change (q :: post) with ([q] ++ post) at 1.
           rewrite <- (app_nil_r post) at 1. rewrite app_assoc.
           rewrite to_scalar_values_padding_left, app_nil_r; [reflexivity|].
           cbn [padding forallb app]. now rewrite Pq, P.
        -- cbn [app length] in *. destruct (URL.is_trail_surrogate d).
           ++ rewrite IH by lia. reflexivity.
           ++ change (d :: s ++ post) with ((d :: s) ++ post).
              rewrite IH by (cbn [length]; lia). reflexivity.
      * destruct (URL.is_trail_surrogate c); rewrite IH by lia; reflexivity.
Qed.

Lemma strip_leading_padding (pre x : list N) :
  padding pre = true -> URL.strip_leading (pre ++ x) = URL.strip_leading x.
Proof.
  induction pre as [|c pre IH]; intros P; [reflexivity|].
  cbn [padding forallb] in P. apply andb_true_iff in P as [Pc P].
  cbn [app URL.strip_leading]. rewrite Pc. now apply IH.
Qed.

Lemma strip_leading_before_padding (post : list N) :
  padding post = true ->
  forall x,
    URL.strip_leading (x ++ post) = URL.strip_leading x ++ post
    \/ (URL.strip_leading x = [] /\ URL.strip_leading (x ++ post) = []).
Proof.
  intros P. induction x as [|c x IH].
  - right. split; [reflexivity|]. cbn [app].
    rewrite <- (app_nil_r post). now rewrite strip_leading_padding.
  - cbn [app URL.strip_leading].
    destruct (URL.is_C0_control_or_space c); [exact IH | now left].
Qed.

Lemma padding_rev (s : list N) : padding s = true -> padding (rev s) = true.
Proof.
  unfold padding. rewrite !forallb_forall. intros H c Hin.
  apply H. now apply in_rev.
Qed.

Lemma strip_trailing_padding (post z : list N) :
  padding post = true -> URL.strip_trailing (z ++ post) = URL.strip_trailing z.
Proof.
  intros P. unfold URL.strip_trailing.
  now rewrite rev_app_distr, strip_leading_padding by now apply padding_rev.
Qed.

Lemma clean_input_padding (pre x post : list N) :
  padding pre = true -> padding post = true ->
  URL.clean_input (pre ++ x ++ post) = URL.clean_input x.
Proof.
  intros Ppre Ppost. unfold URL.clean_input. f_equal.
  rewrite strip_leading_padding by exact Ppre.
  destruct (@strip_leading_before_padding post Ppost x) as [E | [E0 E]]; rewrite E.
  - now apply strip_trailing_padding.
  - now rewrite E0.
Qed.

Section UrlPadding.

Variable platform : URL.HostPlatform.

(** X13. [validateUrl] does not see spaces and control characters (code units up
    to U+0020) around the URL: a padded string is accepted exactly when the
    string itself is, and parses to the same URL. *)
Theorem validateUrl_ignores_padding :
  forall pre v post : jsstring,
    padding pre = true -> padding post = true ->
    validateUrl platform (pre ++ v ++ post) = validateUrl platform v
    /\ URL.new_URL platform (pre ++ v ++ post) = URL.new_URL platform v.
Proof.
  intros pre v post Ppre Ppost.
  assert (E : URL.new_URL platform (pre ++ v ++ post)
              = URL.new_URL platform v).
  { unfold URL.new_URL, URL.basic_URL_parser.
    rewrite to_scalar_values_padding_left by exact Ppre.
    rewrite (@to_scalar_values_padding_right post Ppost (length v) v (le_n _)).
    now rewrite clean_input_padding. }
  split; [|exact E]. unfold validateUrl. now rewrite E.
Qed.

End UrlPadding.

Lemma validateUrl_ignores_padding_witness :
  validateUrl plain_platform
              (js "  " ++ js "https://example.com/a" ++ [9%N; 10%N; 32%N])
  = validateUrl plain_platform (js "https://example.com/a")
  /\ URL.new_URL plain_platform
       (js "  " ++ js "https://example.com/a" ++ [9%N; 10%N; 32%N])
     = URL.new_URL plain_platform (js "https://example.com/a").
Proof.
  apply (@validateUrl_ignores_padding plain_platform
           (js "  ") (js "https://example.com/a") [9%N; 10%N; 32%N]).
  - reflexivity.
  - reflexivity.
Defined.

Section UrlHosts.

Variable platform : URL.HostPlatform.

Lemma special_authority_slashes_state_skips (sch x : list N) :
  URL.special_authority_slashes_state platform sch x
  = URL.special_authority_ignore_slashes_state platform sch x.
Proof.
  unfold URL.special_authority_slashes_state.
  destruct x as [|c x]; [reflexivity|].
  destruct c as [|p]; [reflexivity|].
  do 6 (destruct p as [p|p|]; try reflexivity).
  destruct x as [|c x]; [reflexivity|].
  destruct c as [|p]; [reflexivity|].
  do 6 (destruct p as [p|p|]; try reflexivity).
Qed.

Lemma ignore_slashes_skips (sch slashes rest : list N) :
  forallb is_slash slashes = true ->
  URL.special_authority_ignore_slashes_state platform sch (slashes ++ rest)
  = URL.special_authority_ignore_slashes_state platform sch rest.
Proof.
  induction slashes as [|c slashes IH]; intros F; [reflexivity|].
  cbn [forallb] in F. apply andb_true_iff in F as [Fc F].
  cbn [app URL.special_authority_ignore_slashes_state].
  unfold is_slash in Fc. rewrite Fc. now apply IH.
Qed.

(** X14. After [http:], [https:], [ftp:], [ws:] or [wss:] and any number of
    slashes there must be a host: a string that ends there, or goes on with
    [?] or [#], is rejected. *)
Theorem validateUrl_needs_a_host_after_a_special_scheme :
  forall (v : jsstring) (first : N) (name slashes rest : list N),
    URL.clean_input (URL.to_scalar_values v)
    = first :: name ++ URL.colon :: slashes ++ rest ->
    is_ascii_alpha first = true ->
    forallb URL.is_scheme_code_point name = true ->
    URL.is_special (map ascii_lower (first :: name)) = true ->
    JS.eqb (map ascii_lower (first :: name)) (js "file") = false ->
    forallb is_slash slashes = true ->
    rest = [] \/ (exists r, rest = URL.question_mark :: r)
    \/ (exists r, rest = URL.number_sign :: r) ->
    validateUrl platform v = false.
Proof.
  intros v first name slashes rest E A F S NF Fs R.
  unfold validateUrl, URL.new_URL, URL.basic_URL_parser.
  rewrite E, scheme_start_state_complete by assumption.
  remember (map ascii_lower (first :: name)) as sch eqn:Hsch. clear Hsch E.
  unfold URL.after_scheme. rewrite NF, S.
  rewrite special_authority_slashes_state_skips, ignore_slashes_skips
    by exact Fs.
  destruct R as [-> | [[r ->] | [r ->]]]; cbn; rewrite ?S; cbn;
    unfold URL.host_done; rewrite S; reflexivity.
Qed.

End UrlHosts.

Lemma validateUrl_needs_a_host_after_a_special_scheme_witness :
  validateUrl plain_platform (js "https:///?q=1") = false.
Proof.
  apply (@validateUrl_needs_a_host_after_a_special_scheme plain_platform
           (js "https:///?q=1") 104%N (js "ttps") (js "///") (js "?q=1")).
  - reflexivity.
  - reflexivity.
  - reflexivity.
  - reflexivity.
  - reflexivity.
  - reflexivity.
  - right. left. now exists (js "q=1").
Defined.

(** ** Typing, then submitting *)

Section TypingThenSubmitting.

Variable platform : URL.HostPlatform.

(** X15. What is sent is what was typed last: from the Idle view, typing an
    email and a URL that pass the validators and submitting sends exactly
    one request, built from these two values, whatever the fields held
    before. *)
Theorem typed_fields_are_what_is_sent :
  forall (w : World) (a u : jsstring),
    viewStatus (state w) = Idle ->
    validateEmail a = true ->
    validateUrl platform u = true ->
    exists w',
      run platform w [ Change field_email a;
                       Change field_article_url u;
                       SubmitForm ] = Some w'
      /\ requests w'
         = requests w ++ [submitRequest {| email := a; article_url := u |}]
      /\ formData (state w') = {| email := a; article_url := u |}
      /\ viewStatus (state w') = Submitting.
Proof.
  intros w a u I Va Vu.
  destruct w as [[data loading success] pend eff].
  unfold viewStatus, render in I. cbn in I.
  destruct success; [discriminate|]. destruct loading; [discriminate|].
  eexists. split.
  - cbn [run step render state isSuccess isLoading inputs_shown
         submit_enabled negb call handleInputChange setFormData
         formData pending effects].
    unfold call. cbn [state].
    rewrite handleSubmit_valid by (cbn; assumption).
    reflexivity.
  - cbn. unfold requests. cbn [effects].
    rewrite !app_nil_r, flat_map_app. auto.
Qed.

End TypingThenSubmitting.

Lemma typed_fields_are_what_is_sent_witness :
  exists w',
    run plain_platform initialWorld
        [ Change field_email (js "user@example.com");
          Change field_article_url (js "https://example.com/a");
          SubmitForm ] = Some w'
    /\ requests w' = requests initialWorld ++ [submitRequest typed]
    /\ formData (state w') = typed
    /\ viewStatus (state w') = Submitting.
Proof.
  apply (@typed_fields_are_what_is_sent plain_platform initialWorld
           (js "user@example.com") (js "https://example.com/a")).
  - reflexivity.
  - reflexivity.
  - reflexivity.
Defined.
